(** * Retrieval-augmented policy bot: a shallow embedding of the TypeScript core

    The development follows the sources of the repository:

    - [rag.ts], class [SimpleMongoRetriever]: cosine scoring and the
      nearest-neighbour scan over the stored chunks, first over rows whose
      embeddings are arrays ([Retriever]), then over the collection as the
      database returns it, with a read that can be rejected and embeddings
      that can be missing ([Store]);
    - [rag.ts], class [RAGService]: the conversational memory, [query] and
      the embedding step of [initializeVectorStore];
    - the keyword adapter [textSearch] and [search/vector_search.ts]: the two
      Atlas search adapters and their runtime flags;
    - [vector_index.ts]: the embedding step of the dataset indexer.

    JavaScript values are rendered as follows.  A [number] used as a score or
    as a vector entry is an element of a type carrying the arithmetic of the
    language ([JsNumber]), instantiated by IEEE-754 binary64, the
    arithmetic the program runs on.  A [number] used as a count or as an
    index is an integer of [Z].  An [async] function is a
    function of the state it reads and writes; a [throw] is the [Throw]
    result, and assignments made before a [throw] stay made.  Console output
    is left out, except in the search adapters, where it is the only thing
    that happens before the throw. *)

From Stdlib Require Import String Ascii List ZArith Bool Lia Permutation Sorted.
From Stdlib Require Import PrimFloat.
From Stdlib Require FloatOps FloatAxioms SpecFloat.
Import ListNotations.
Local Open Scope string_scope.
Local Open Scope list_scope.

Set Implicit Arguments.

(** ** JavaScript runtime: errors, arrays, strings *)

Module Js.

(** An [Error] object: its [name] property and its [message]. *)
Record JsError : Type := mkError { name : string; message : string }.

(** [new Error(msg)]. *)
Definition Error (msg : string) : JsError :=
  {| name := "Error"; message := msg |}.

(** The error of reading a property of [undefined]. *)
Definition TypeError (msg : string) : JsError :=
  {| name := "TypeError"; message := msg |}.

(** The outcome of evaluating an expression: a value or a thrown error. *)
Inductive result (A : Type) : Type :=
| Ok (a : A)
| Throw (e : JsError).
Arguments Ok {A} a.
Arguments Throw {A} e.

Definition bind_result {A B} (r : result A) (k : A -> result B) : result B :=
  match r with
  | Ok a => k a
  | Throw e => Throw e
  end.

(** [for (const t of l) out.push(await f(t))]: the calls are made in input
    order and the first one that throws ends the loop. *)
Fixpoint for_of_push {A B} (f : A -> result B) (l : list A) : result (list B) :=
  match l with
  | [] => Ok []
  | t :: l' =>
      bind_result (f t) (fun v =>
      bind_result (for_of_push f l') (fun vs => Ok (v :: vs)))
  end.

(** The relative index of [Array.prototype.slice]: a negative index counts
    from the end, and the result is clamped to [0 .. len]. *)
Definition relative_index (len i : Z) : Z :=
  if (i <? 0)%Z then Z.max (len + i) 0 else Z.min i len.

(** [l.slice(start, end)]; [end_ = None] is the omitted argument. *)
Definition slice {A} (start : Z) (end_ : option Z) (l : list A) : list A :=
  let len := Z.of_nat (length l) in
  let k := relative_index len start in
  let final := match end_ with
               | Some e => relative_index len e
               | None => len
               end in
  firstn (Z.to_nat (final - k)) (skipn (Z.to_nat k) l).

(** The last [n] elements of a list. *)
Definition lastn {A} (n : nat) (l : list A) : list A :=
  skipn (List.length l - n) l.

(** [x || dflt] on an optional string: [undefined] and the empty string are
    both falsy. *)
Definition or_default (x : option string) (dflt : string) : string :=
  match x with
  | Some EmptyString | None => dflt
  | Some s => s
  end.

Definition lower_ascii (c : ascii) : ascii :=
  let n := nat_of_ascii c in
  if (65 <=? n)%nat && (n <=? 90)%nat then ascii_of_nat (n + 32) else c.

(** [s.toLowerCase()] on the ASCII letters.  No character outside ASCII
    lower-cases to one of the letters of ["true"], so the comparisons with
    ["true"] below are decided as in the program. *)
Fixpoint toLowerCase (s : string) : string :=
  match s with
  | EmptyString => EmptyString
  | String c s' => String (lower_ascii c) (toLowerCase s')
  end.

Definition newline : string := String (ascii_of_nat 10) EmptyString.

End Js.
Export Js.

(** ** Numbers *)

(** The operations the scoring code applies to a JavaScript [number]. *)
Class JsNumber (num : Type) : Type := {
  num_zero : num;                       (* the literal [0] *)
  num_undefined : num;                  (* [undefined] read as a number *)
  num_add : num -> num -> num;
  num_sub : num -> num -> num;
  num_mul : num -> num -> num;
  num_div : num -> num -> num;
  num_sqrt : num -> num;                (* [Math.sqrt] *)
  num_eq : num -> num -> bool;          (* [===] *)
  num_lt : num -> num -> bool;          (* [<] *)
  num_le : num -> num -> bool;          (* [<=] *)
  num_isNaN : num -> bool               (* [Number.isNaN] *)
}.

(** IEEE-754 binary64, the arithmetic of the program.  [undefined] becomes
    [NaN] in arithmetic. *)
#[export] Instance double : JsNumber float := {
  num_zero := 0%float;
  num_undefined := PrimFloat.nan;
  num_add := PrimFloat.add;
  num_sub := PrimFloat.sub;
  num_mul := PrimFloat.mul;
  num_div := PrimFloat.div;
  num_sqrt := PrimFloat.sqrt;
  num_eq := PrimFloat.eqb;
  num_lt := PrimFloat.ltb;
  num_le := PrimFloat.leb;
  num_isNaN := PrimFloat.is_nan
}.

(** What the zero-norm guard of the scoring relies on: [0 === 0], the
    accumulators stay [0] over zero entries, and [0] is a number. *)
Class JsNumberLaws (num : Type) {N : JsNumber num} : Prop := {
  zero_eq_zero : num_eq num_zero num_zero = true;
  zero_accumulates :
    num_add num_zero (num_mul num_zero num_zero) = num_zero;
  zero_is_not_NaN : num_isNaN num_zero = false
}.
Arguments JsNumberLaws num {N}.

(** ** [Array.prototype.sort] *)

Section ArraySort.
Context {num : Type} `{JsNumber num} {A : Type}.
Variable comparefn : A -> A -> num.

(** [comparefn(a, b) < 0]: [a] is placed before [b]. *)
Definition sorts_before (a b : A) : bool :=
  num_lt (comparefn a b) num_zero.

(** Neither is placed before the other (the comparator returned [0],
    or [NaN], which the sort reads as [0]). *)
Definition ties (a b : A) : bool :=
  negb (sorts_before a b) && negb (sorts_before b a).

(** [x] precedes every element of [l] in the array being sorted, so it
    passes only the elements that must come before it. *)
Fixpoint sort_insert (x : A) (l : list A) : list A :=
  match l with
  | [] => [x]
  | y :: l' => if sorts_before y x then y :: sort_insert x l' else x :: l
  end.

(** [l.sort(comparefn)].  The language requires the sort to be stable and
    fixes its result whenever the comparator is consistent; the stable
    insertion sort below computes that result (lemma
    [SortFacts.sort_unique]).  For a comparator that is not consistent
    the language leaves the order to the engine: what is
    proved about order below either assumes scores that make the comparator
    consistent, or is about two elements, which a stable sort leaves in
    place when they tie, or holds of every rearrangement. *)
Definition sort (l : list A) : list A :=
  fold_right sort_insert [] l.

(** The comparator is consistent on the elements of [l]: being placed
    before is asymmetric, and not being placed before is transitive. *)
Definition consistent_comparator (l : list A) : bool :=
  forallb (fun x => forallb (fun y =>
    implb (sorts_before x y) (negb (sorts_before y x))) l) l
  && forallb (fun x => forallb (fun y => forallb (fun z =>
       implb (negb (sorts_before x y) && negb (sorts_before y z))
             (negb (sorts_before x z))) l) l) l.
(** [b] is not placed sorts_before [a]: the order of a sorted array. *)
Definition not_after (a b : A) : Prop := sorts_before b a = false.

Definition asymmetric_on (u : list A) : Prop :=
  forall x y, In x u -> In y u -> sorts_before x y = true -> sorts_before y x = false.

Definition transitive_on (u : list A) : Prop :=
  forall x y z, In x u -> In y u -> In z u ->
    sorts_before x y = false -> sorts_before y z = false -> sorts_before x z = false.
End ArraySort.

(** ** [SimpleMongoRetriever] *)

Module Retriever.
Section Retriever.
Context {num : Type} `{JsNumber num}.

(** A stored chunk, [{ content, metadata, embedding }], as the type
    assertion [r.embedding as number[]] reads it: the embedding is an array.
    The documents as the database holds them, with a missing or [null]
    embedding, are in the module [Store] below. *)
Record Row : Type := {
  content : string;
  metadata : list (string * string);
  embedding : list num
}.

(** The embeddings provider: either method may be missing. *)
Record Embeddings : Type := {
  embedQuery : option (string -> result (list num));
  embedDocuments : option (list string -> result (list (list num)))
}.

Record SimpleMongoRetriever : Type := {
  collection : list Row;      (* what [collection.find({}).toArray()] yields *)
  embeddings : Embeddings;
  topK : Z
}.

(** [{ score, doc }]. *)
Record Scored : Type := { score : num; doc : Row }.

(** [{ pageContent, metadata }]. *)
Record Document : Type := {
  pageContent : string;
  doc_metadata : list (string * string)
}.

(** The loop of [cosine]: [for (let i = 0; i < a.length; i++)].  The
    recursion walks [a]; [b[i]] past the end of [b] is [undefined]. *)
Fixpoint cosine_loop (a b : list num) (dot na nb : num) : num * num * num :=
  match a with
  | [] => (dot, na, nb)
  | ai :: a' =>
      let bi := hd num_undefined b in
      cosine_loop a' (tl b)
        (num_add dot (num_mul ai bi))
        (num_add na (num_mul ai ai))
        (num_add nb (num_mul bi bi))
  end.

Definition cosine (a b : list num) : num :=
  let '(dot, na, nb) := cosine_loop a b num_zero num_zero num_zero in
  if num_eq na num_zero || num_eq nb num_zero then num_zero
  else num_div dot (num_mul (num_sqrt na) (num_sqrt nb)).

(** The squared norm as the loop accumulates it. *)
Definition norm2 (v : list num) : num :=
  fold_left (fun acc x => num_add acc (num_mul x x)) v num_zero.

(** The query embedding; [arr[0]] of an empty array is [undefined]. *)
Definition query_vector (e : Embeddings) (query : string)
  : result (option (list num)) :=
  match embedQuery e with
  | Some f => bind_result (f query) (fun v => Ok (Some v))
  | None =>
      match embedDocuments e with
      | Some g => bind_result (g [query]) (fun arr => Ok (nth_error arr 0))
      | None => Throw (Error "Embeddings provider has no embed method")
      end
  end.

(** [rows.map((r) => ({ score: this.cosine(qVec, r.embedding), doc: r }))]
    for a query vector that is there. *)
Definition score_all (q : list num) (rows : list Row) : list Scored :=
  map (fun r => {| score := cosine q (embedding r); doc := r |}) rows.

(** The same [map] for the value [qVec] has: [cosine] reads [a.length],
    which throws on [undefined]. *)
Definition score_rows (qVec : option (list num)) (rows : list Row)
  : result (list Scored) :=
  match qVec with
  | Some q => Ok (score_all q rows)
  | None =>
      match rows with
      | [] => Ok []
      | _ :: _ =>
          Throw (TypeError "Cannot read properties of undefined (reading 'length')")
      end
  end.

(** [(a, b) => b.score - a.score]. *)
Definition by_score_desc (a b : Scored) : num :=
  num_sub (score b) (score a).

(** [.sort((a, b) => b.score - a.score).slice(0, this.topK)]. *)
Definition top_hits (k : Z) (scored : list Scored) : list Scored :=
  slice 0 (Some k) (sort by_score_desc scored).

(** The array named [scored] for a query vector [q]: the nearest
    neighbours of [q] among [rows], with their scores. *)
Definition nearest (k : Z) (q : list num) (rows : list Row) : list Scored :=
  top_hits k (score_all q rows).

(** The scores are totally ordered by [<=] and [===], and the comparator
    follows that order: it is consistent, it places [a] before [b] exactly
    when [a.score <= b.score] fails, and it ties exactly the equal scores.
    A [NaN] among several scores breaks this. *)
Definition scores_comparable (l : list Scored) : bool :=
  consistent_comparator by_score_desc l
  && forallb (fun a => forallb (fun b =>
       Bool.eqb (sorts_before by_score_desc a b)
                (negb (num_le (score a) (score b)))
       && Bool.eqb (ties by_score_desc a b) (num_eq (score a) (score b))) l) l.

Definition to_document (s : Scored) : Document :=
  {| pageContent := content (doc s); doc_metadata := metadata (doc s) |}.

(** The method on a collection that has been read and whose rows carry
    arrays.  A read that is rejected and a row without an array are paths
    of [Store._getRelevantDocuments], which is this function on such
    collections (lemma [StoreFacts.agrees]). *)
Definition _getRelevantDocuments (this : SimpleMongoRetriever) (query : string)
  : result (list Document) :=
  bind_result (query_vector (embeddings this) query) (fun qVec =>
  bind_result (score_rows qVec (collection this)) (fun scored =>
  Ok (map to_document (top_hits (topK this) scored)))).

Definition getRelevantDocuments := _getRelevantDocuments.

End Retriever.

Arguments Row num : clear implicits.
Arguments Embeddings num : clear implicits.
Arguments SimpleMongoRetriever num : clear implicits.
Arguments Scored num : clear implicits.
End Retriever.
Import Retriever.

(** ** The collection as the database returns it *)

Module Store.
Section Store.
Context {num : Type} `{JsNumber num}.

(** The [embedding] field of a document of the collection.  The type
    assertion [r.embedding as number[]] checks nothing at run time: the
    field is an array of numbers, or it is missing ([undefined]), or it is
    [null].  [initializeVectorStore] writes [vectors[i]], which is
    [undefined] past the end of a batch response that is too short. *)
Inductive Field : Type :=
| array (v : list num)
| undefined
| null.

(** A document of the collection. *)
Record StoredRow : Type := {
  content : string;
  metadata : list (string * string);
  embedding : Field
}.

(** The retriever with what its collection answers: [find] is the outcome
    of [await this.collection.find({}).toArray()], a rejection included. *)
Record SimpleMongoRetriever : Type := {
  find : result (list StoredRow);
  embeddings : Embeddings num;
  topK : Z
}.

(** [{ score, doc }]. *)
Record Scored : Type := { score : num; doc : StoredRow }.

(** The entries the loop of [cosine] reads from an embedding that is an
    array. *)
Definition entries (b : Field) : list num :=
  match b with
  | array v => v
  | undefined | null => []
  end.

(** [this.cosine(qVec, r.embedding)].  [a.length] throws on a query vector
    that is [undefined]; [b[i]] throws on an embedding that is [undefined]
    or [null], in the first round of the loop, hence not for an empty [a]. *)
Definition cosine_of (qVec : option (list num)) (b : Field) : result num :=
  match qVec with
  | None =>
      Throw (TypeError "Cannot read properties of undefined (reading 'length')")
  | Some a =>
      match b, a with
      | array v, _ => Ok (cosine a v)
      | _, [] => Ok (cosine a [])
      | undefined, _ :: _ =>
          Throw (TypeError "Cannot read properties of undefined (reading '0')")
      | null, _ :: _ =>
          Throw (TypeError "Cannot read properties of null (reading '0')")
      end
  end.

(** The callback of [rows.map]:
    [(r) => ({ score: this.cosine(qVec, r.embedding), doc: r })]. *)
Definition score_row (qVec : option (list num)) (r : StoredRow) : result Scored :=
  bind_result (cosine_of qVec (embedding r))
    (fun s => Ok {| score := s; doc := r |}).

(** The array [rows.map(...)] yields when no call throws. *)
Definition score_all (q : list num) (rows : list StoredRow) : list Scored :=
  map (fun r => {| score := cosine q (entries (embedding r)); doc := r |}) rows.

(** [(a, b) => b.score - a.score]. *)
Definition by_score_desc (a b : Scored) : num :=
  num_sub (score b) (score a).

Definition to_document (s : Scored) : Document :=
  {| pageContent := content (doc s); doc_metadata := metadata (doc s) |}.

(** [_getRelevantDocuments] with every path on which it throws: the query
    embedding, the read of the collection, and the scoring of each row in
    turn. *)
Definition _getRelevantDocuments (this : SimpleMongoRetriever) (query : string)
  : result (list Document) :=
  bind_result (query_vector (embeddings this) query) (fun qVec =>
  bind_result (find this) (fun rows =>
  bind_result (for_of_push (score_row qVec) rows) (fun scored =>
  Ok (map to_document
        (slice 0 (Some (topK this)) (sort by_score_desc scored)))))).

(** A row of arrays as a document of the collection, and a retriever over
    such rows as a retriever whose read succeeds. *)
Definition stored (r : Row num) : StoredRow :=
  {| content := Retriever.content r;
     metadata := Retriever.metadata r;
     embedding := array (Retriever.embedding r) |}.

Definition scored_as_stored (s : Retriever.Scored num) : Scored :=
  {| score := Retriever.score s; doc := stored (Retriever.doc s) |}.

Definition of_rows (this : Retriever.SimpleMongoRetriever num)
  : SimpleMongoRetriever :=
  {| find := Ok (map stored (collection this));
     embeddings := Retriever.embeddings this;
     topK := Retriever.topK this |}.
End Store.

Arguments Field num : clear implicits.
Arguments StoredRow num : clear implicits.
Arguments SimpleMongoRetriever num : clear implicits.
Arguments Scored num : clear implicits.
End Store.

(** ** The order of binary64 *)

Module Binary64.
Import SpecFloat.
Local Open Scope Z_scope.

(** The place of a number in the order of the format: its class (negative
    infinity, negative, zero, positive, positive infinity), then its
    exponent and its mantissa, both counted downwards for a negative
    number. *)
Definition rank (x : spec_float) : Z * Z * Z :=
  match x with
  | S754_infinity true => (0, 0, 0)
  | S754_finite true m e => (1, - e, Z.neg m)
  | S754_zero _ => (2, 0, 0)
  | S754_finite false m e => (3, e, Z.pos m)
  | S754_infinity false => (4, 0, 0)
  | S754_nan => (5, 0, 0)
  end.

(** The lexicographic order of the ranks. *)
Definition lex_lt (t u : Z * Z * Z) : Prop :=
  let '(a, b, c) := t in
  let '(a', b', c') := u in
  a < a' \/ (a = a' /\ (b < b' \/ (b = b' /\ c < c'))).

(** A number of the given sign, finite or infinite, and not a zero. *)
Definition has_sign (s : bool) (x : spec_float) : Prop :=
  x = S754_infinity s \/ exists m e, x = S754_finite s m e.
End Binary64.

(** ** [RAGService] *)

Module Rag.
Section RAGService.
Context {num : Type} `{JsNumber num}.

Inductive Role : Type := user | assistant.

(** An entry of [memory]: [{ role, content }]. *)
Record Turn : Type := { role : Role; content : string }.

(** What the chain hands to the prompt: the retrieved context, the rendered
    history and the question. *)
Record PromptInput : Type := {
  context : string;
  conversation_history : string;
  question : string
}.

(** The value of [this.chain] once built; its steps close over [this]. *)
Inductive RunnableSequence : Type := RunnableSequence_from.

(** The fields of the service.  [model] stands for the prompt template, the
    chat model and the output parser together: a prompt in, the answer text
    out, or a thrown error. *)
Record RAGService : Type := {
  retriever : option (SimpleMongoRetriever num);
  chain : option RunnableSequence;
  memory : list Turn;
  maxMemoryTurns : Z;
  model : PromptInput -> result string
}.

Definition set_chain (c : option RunnableSequence) (this : RAGService) :=
  {| retriever := retriever this; chain := c; memory := memory this;
     maxMemoryTurns := maxMemoryTurns this; model := model this |}.

Definition set_memory (m : list Turn) (this : RAGService) :=
  {| retriever := retriever this; chain := chain this; memory := m;
     maxMemoryTurns := maxMemoryTurns this; model := model this |}.

Definition set_maxMemoryTurns (n : Z) (this : RAGService) :=
  {| retriever := retriever this; chain := chain this; memory := memory this;
     maxMemoryTurns := n; model := model this |}.

(** A method body: it runs on the object and leaves it updated, whether it
    returns or throws. *)
Definition M (A : Type) : Type := RAGService -> result A * RAGService.

Definition ret {A} (a : A) : M A := fun this => (Ok a, this).

Definition bind {A B} (c : M A) (k : A -> M B) : M B :=
  fun this =>
    match c this with
    | (Ok a, this') => k a this'
    | (Throw e, this') => (Throw e, this')
    end.

Definition throw {A} (e : JsError) : M A := fun this => (Throw e, this).

(** [try { body } catch (error) { handler }]. *)
Definition try_catch {A} (body : M A) (handler : JsError -> M A) : M A :=
  fun this =>
    match body this with
    | (Ok a, this') => (Ok a, this')
    | (Throw e, this') => handler e this'
    end.

Definition get : M RAGService := fun this => (Ok this, this).
Definition modify (f : RAGService -> RAGService) : M unit :=
  fun this => (Ok tt, f this).
Definition lift {A} (r : result A) : M A := fun this => (r, this).

Notation "x <- c ;; k" := (bind c (fun x => k))
  (at level 61, c at next level, right associativity).
Notation "c ;; k" := (bind c (fun _ => k))
  (at level 61, right associativity).

(** [docs.map((doc) => doc.pageContent).join("\n\n---\n\n")]. *)
Definition combineDocuments (docs : list Document) : string :=
  String.concat (newline ++ newline ++ "---" ++ newline ++ newline)
    (map (@pageContent) docs).

Definition render_turn (m : Turn) : string :=
  match role m with
  | user => "User: " ++ content m
  | assistant => "Assistant: " ++ content m
  end.

(** [this.memory.slice(-this.maxMemoryTurns * 2)], rendered and joined. *)
Definition buildConversationHistory (this : RAGService) : string :=
  let items := slice (- maxMemoryTurns this * 2) None (memory this) in
  String.concat newline (map render_turn items).

(** [this.memory.push(t)]. *)
Definition memory_push (t : Turn) : M unit :=
  modify (fun this => set_memory (memory this ++ [t]) this).

(** [if (this.memory.length > this.maxMemoryTurns * 2)
       this.memory = this.memory.slice(-this.maxMemoryTurns * 2)]. *)
Definition memory_trim : M unit :=
  modify (fun this =>
    if (Z.of_nat (List.length (memory this)) >? maxMemoryTurns this * 2)%Z
    then set_memory (slice (- maxMemoryTurns this * 2) None (memory this)) this
    else this).

(** The memory after [push] and the trimming test that follows it. *)
Definition pushed_memory (this : RAGService) (t : Turn) : list Turn :=
  let m := memory this ++ [t] in
  if (Z.of_nat (List.length m) >? maxMemoryTurns this * 2)%Z
  then slice (- maxMemoryTurns this * 2) None m
  else m.

(** [this.chain.invoke({ question })]: retrieve and combine the context,
    render the history, call the model.  A throw of the retriever or of the
    model is a throw of the call. *)
Definition chain_invoke (q : string) : M string :=
  this <- get ;;
  match retriever this with
  | None =>
      throw (TypeError
        "Cannot read properties of undefined (reading '_getRelevantDocuments')")
  | Some r =>
      docs <- lift (_getRelevantDocuments r q) ;;
      lift (model this {| context := combineDocuments docs;
                          conversation_history := buildConversationHistory this;
                          question := q |})
  end.

Definition not_initialized_message : string := "Vector store not initialized.".
Definition error_message : string :=
  "An error occurred while processing your request.".

Definition query (q : string) : M string :=
  this <- get ;;
  match retriever this with
  | None => ret not_initialized_message
  | Some _ =>
      match chain this with
      | None => modify (set_chain (Some RunnableSequence_from))
      | Some _ => ret tt
      end ;;
      try_catch
        (memory_push {| role := user; content := q |} ;;
         memory_trim ;;
         answer <- chain_invoke q ;;
         memory_push {| role := assistant; content := answer |} ;;
         memory_trim ;;
         ret answer)
        (fun _ => ret error_message)
  end.

(** Appending turns the way [query] does: push, then trim. *)
Fixpoint append_turns (ts : list Turn) : M unit :=
  match ts with
  | [] => ret tt
  | t :: ts' =>
      bind (bind (memory_push t) (fun _ => memory_trim))
           (fun _ => append_turns ts')
  end.

Definition clearMemory : M unit := modify (set_memory []).

Definition getMemory : M (list Turn) := this <- get ;; ret (memory this).

Definition setMaxMemoryTurns (n : Z) : M unit :=
  modify (set_maxMemoryTurns n) ;; memory_trim.

(** The embedding step of [initializeVectorStore]: the batch method when the
    provider has it, otherwise one [embedQuery] call per text. *)
Definition embed_texts (e : Embeddings num) (texts : list string)
  : result (list (list num)) :=
  match embedDocuments e with
  | Some batch => batch texts
  | None =>
      for_of_push
        (fun t =>
           match embedQuery e with
           | Some f => f t
           | None =>
               Throw (Error
                 "Embeddings provider does not expose embedDocuments or embedQuery")
           end)
        texts
  end.

End RAGService.

Arguments RAGService num : clear implicits.
End Rag.

(** ** The dataset indexer ([vector_index.ts]) *)

Module VectorIndex.
Section VectorIndex.
Context {num : Type} `{JsNumber num}.

(** The embedding step of [createVectorIndexesFromDataset]. *)
Definition embed_texts (e : Embeddings num) (texts : list string)
  : result (list (list num)) :=
  match embedDocuments e with
  | Some batch => batch texts
  | None =>
      match embedQuery e with
      | Some f => for_of_push f texts
      | None => Throw (Error "Embeddings provider missing embedDocuments/embedQuery")
      end
  end.
End VectorIndex.
End VectorIndex.

(** ** The Atlas search adapters: [textSearch] and [vectorSearch] *)

Module Search.
Section Search.
Context {num : Type} `{JsNumber num}.
(** The documents an aggregation returns are not inspected here. *)
Variable Doc : Type.

(** [type Filter = { path: string; value: string }]. *)
Record Filter : Type := { path : string; value : string }.

(** [path: string | string[]]. *)
Inductive PathArg : Type :=
| one_path (p : string)
| many_paths (ps : list string).

(** The bodies of a [$search] stage. *)
Inductive Clause : Type :=
| text (query : string) (text_path : PathArg)
| knn (knn_path : string) (vector : list num) (k : Z).

Inductive SearchBody : Type :=
| plain (c : Clause)
| compound (must : list Clause) (filter : list Filter).

Inductive Stage : Type :=
| search_stage (index : string) (body : SearchBody)
| limit_stage (n : Z)
| project_stage.

(** What the function does to the outside world, in order. *)
Inductive Event : Type :=
| console_log (args : list string)
| client_connect (uri : string)
| coll_aggregate (db coll : string) (pipeline : list Stage)
| client_close.

Definition is_external_call (e : Event) : bool :=
  match e with
  | console_log _ => false
  | _ => true
  end.

(** The database as the adapters see it. *)
Record MongoClient : Type := {
  connect : string -> result unit;
  aggregate : string -> string -> list Stage -> result (list Doc);
  close : result unit
}.

(** [process.env]. *)
Definition Env : Type := string -> option string.

(** The constants a module fixes when it is loaded. *)
Record Loaded : Type := {
  mongoUri : string;
  dbName : string;
  collName : string;
  indexName : string
}.

(** The top of both modules; [suffix] and [index_var] are the index name's
    default suffix and its environment variable. *)
Definition load (index_var suffix : string) (env : Env) : result Loaded :=
  match env "MONGODB_URI" with
  | None | Some EmptyString => Throw (Error "MONGODB_URI not set in environment")
  | Some uri =>
      let coll := or_default (env "MONGODB_COLLECTION") "ClusterMM" in
      Ok {| mongoUri := uri;
            dbName := or_default (env "MONGODB_DB_NAME") "OnboardIQ_bot";
            collName := coll;
            indexName := or_default (env index_var) (coll ++ suffix) |}
  end.

(** [(process.env.X || "true").toLowerCase() === "true"]. *)
Definition flag_enabled (env : Env) (var : string) : bool :=
  String.eqb (toLowerCase (or_default (env var) "true")) "true".

(** The part both adapters share after the flag: connect, aggregate, and
    close in the [finally] block. *)
Definition run_pipeline (m : Loaded) (client : MongoClient)
    (pipeline : list Stage) : list Event * result (list Doc) :=
  match connect client (mongoUri m) with
  | Throw e => ([client_connect (mongoUri m)], Throw e)
  | Ok _ =>
      let docs := aggregate client (dbName m) (collName m) pipeline in
      let events := [client_connect (mongoUri m);
                     coll_aggregate (dbName m) (collName m) pipeline;
                     client_close] in
      match close client with
      | Throw e => (events, Throw e)
      | Ok _ => (events, docs)
      end
  end.

Definition search_body (c : Clause) (filter : option Filter) : SearchBody :=
  match filter with
  | Some f => compound [c] [f]
  | None => plain c
  end.

Definition bm25_disabled_message : string :=
  "BM25 text search disabled via BM25_SEARCH_ENABLED=false".

Definition vector_disabled_message : string :=
  "Vector search disabled via VECTOR_SEARCH_ENABLED=false".

(** [textSearch(query, path = "content", limit = 10, filter?)]. *)
Definition textSearch (m : Loaded) (env : Env) (client : MongoClient)
    (query : string) (path_arg : option PathArg) (limit : option Z)
    (filter : option Filter) : list Event * result (list Doc) :=
  let path_arg := match path_arg with Some p => p | None => one_path "content" end in
  let limit := match limit with Some n => n | None => 10%Z end in
  let bm25Enabled := flag_enabled env "BM25_SEARCH_ENABLED" in
  if negb bm25Enabled then
    let msg := bm25_disabled_message in
    ([console_log ["[INFO] "; msg]], Throw (Error msg))
  else
    run_pipeline m client
      [search_stage (indexName m) (search_body (text query path_arg) filter);
       limit_stage limit;
       project_stage].

(** [vectorSearch(queryVector, k = 5, filter?)]. *)
Definition vectorSearch (m : Loaded) (env : Env) (client : MongoClient)
    (queryVector : list num) (k : option Z) (filter : option Filter)
  : list Event * result (list Doc) :=
  let k := match k with Some n => n | None => 5%Z end in
  let vectorEnabled := flag_enabled env "VECTOR_SEARCH_ENABLED" in
  if negb vectorEnabled then
    let msg := vector_disabled_message in
    ([console_log ["[INFO] "; msg]], Throw (Error msg))
  else
    run_pipeline m client
      [search_stage (indexName m) (search_body (knn "embedding" queryVector k) filter);
       project_stage].

End Search.
End Search.

(** ** Ingestion: pairing chunks with their vectors *)

Module Ingest.
Section Ingest.
Context {num : Type} `{JsNumber num}.

(** [l.map((x, i) => f(x, i))], counting from [i]. *)
Fixpoint map_indexed_from {A B : Type} (i : nat) (f : A -> nat -> B) (l : list A)
  : list B :=
  match l with
  | [] => []
  | x :: l' => f x i :: map_indexed_from (S i) f l'
  end.

Definition map_indexed {A B : Type} (f : A -> nat -> B) (l : list A) : list B :=
  map_indexed_from 0 f l.

(** The object [initializeVectorStore] inserts for a chunk.  [embedding] is
    [vectors[i]]: [undefined] when the provider returned fewer vectors than
    texts. *)
Record Insert : Type := {
  content : string;
  metadata : list (string * string);
  embedding : option (list num)
}.

(** [docs.map((d, i) => ({ content: d.pageContent,
      metadata: d.metadata || {}, embedding: vectors[i] }))]. *)
Definition inserts (docs : list Document) (vectors : list (list num))
  : list Insert :=
  map_indexed
    (fun d i => {| content := pageContent d;
                   metadata := doc_metadata d;
                   embedding := nth_error vectors i |})
    docs.

(** The embedding step of [initializeVectorStore] followed by the
    construction of the rows to insert. *)
Definition embed_and_pair (e : Embeddings num) (docs : list Document)
  : result (list Insert) :=
  bind_result (Rag.embed_texts e (map (@pageContent) docs))
    (fun vectors => Ok (inserts docs vectors)).

(** The object the dataset indexer inserts for a row of a file:
    [{ content: t, metadata: { source: file, row: i }, embedding: vectors[i] }]. *)
Record IndexedRow : Type := {
  row_content : string;
  source : string;
  row : nat;
  row_embedding : option (list num)
}.

Definition indexed_rows (file : string) (texts : list string)
    (vectors : list (list num)) : list IndexedRow :=
  map_indexed
    (fun t i => {| row_content := t; source := file; row := i;
                   row_embedding := nth_error vectors i |})
    texts.

(** [vectors[0]?.length || 1536]: the dimension posted to Atlas. *)
Definition index_dimensions (vectors : list (list num)) : Z :=
  match vectors with
  | [] => 1536
  | v :: _ => if (Z.of_nat (List.length v) =? 0)%Z then 1536
              else Z.of_nat (List.length v)
  end.
End Ingest.
Arguments Insert num : clear implicits.
Arguments IndexedRow num : clear implicits.
End Ingest.

(** ** Dataset files and collection names *)

Module Dataset.

(** A character of the class [[a-z0-9_]] read without regard to case. *)
Definition is_word_char (c : ascii) : bool :=
  let n := nat_of_ascii c in
  ((97 <=? n)%nat && (n <=? 122)%nat)
  || ((65 <=? n)%nat && (n <=? 90)%nat)
  || ((48 <=? n)%nat && (n <=? 57)%nat)
  || (n =? 95)%nat.

(** A character of [[a-z0-9_]]. *)
Definition is_lower_word_char (c : ascii) : bool :=
  let n := nat_of_ascii c in
  ((97 <=? n)%nat && (n <=? 122)%nat)
  || ((48 <=? n)%nat && (n <=? 57)%nat)
  || (n =? 95)%nat.

Fixpoint replace_each (f : ascii -> ascii) (s : string) : string :=
  match s with
  | EmptyString => EmptyString
  | String c s' => String (f c) (replace_each f s')
  end.

Fixpoint all_chars (p : ascii -> bool) (s : string) : bool :=
  match s with
  | EmptyString => true
  | String c s' => p c && all_chars p s'
  end.

(** [name.replace(/[^a-z0-9_]/gi, "_").toLowerCase()]: every character
    outside the class becomes an underscore, then the letters are lowered.
    A string is read as its sequence of code units. *)
Definition sanitizeName (name : string) : string :=
  toLowerCase
    (replace_each (fun c => if is_word_char c then c else "_"%char) name).

(** [s] ends with [suffix]. *)
Definition ends_with (suffix s : string) : bool :=
  (String.length suffix <=? String.length s)%nat
  && String.eqb
       (substring (String.length s - String.length suffix)
                  (String.length suffix) s)
       suffix.

(** [/\.csv$/i.test(f)]. *)
Definition is_csv (f : string) : bool := ends_with ".csv" (toLowerCase f).

(** [/\.(csv|txt|md|json)$/i.test(f)]. *)
Definition is_data_file (f : string) : bool :=
  existsb (fun ext => ends_with ext (toLowerCase f))
          [".csv"; ".txt"; ".md"; ".json"].

(** [entries.filter((f) => /\.csv$/i.test(f)).slice(0, 5)]. *)
Definition csv_files (entries : list string) : list string :=
  slice 0 (Some 5%Z) (filter is_csv entries).

(** What [sanitizeName] does to one character. *)
Definition sanitize_char (c : ascii) : ascii :=
  lower_ascii (if is_word_char c then c else "_"%char).

Section CollectionNames.
(** [path.basename(file, path.extname(file))], a function of the path
    library. *)
Variable stem : string -> string.

(** [`${baseCollection}_${sanitizeName(stem)}`]. *)
Definition collection_name (baseCollection file : string) : string :=
  baseCollection ++ "_" ++ sanitizeName (stem file).

(** The collections [create_atlas_indexes.ts] creates an index for:
    one per file, and
    [if (!collNames.includes(baseCollection)) collNames.push(baseCollection)]. *)
Definition collNames (baseCollection : string) (files : list string)
  : list string :=
  let names := map (collection_name baseCollection) files in
  if existsb (String.eqb baseCollection) names then names
  else names ++ [baseCollection].
End CollectionNames.
End Dataset.

(** ** Creating an Atlas search index *)

Module Atlas.

(** What is posted: the URL, the two keys of the basic authentication and
    the fields of the JSON body that vary. *)
Record Request : Type := {
  url : string;
  publicKey : string;
  privateKey : string;
  body_collectionName : string;
  body_database : string;
  body_name : string;
  body_dimensions : Z
}.

(** What [fetch] resolves to: [res.ok] and [res.text()]. *)
Record Response : Type := {
  ok : bool;
  text : result string
}.

(** The options of [createAtlasSearchIndexIfRequested]. *)
Record Options : Type := {
  opt_projectId : string;
  opt_publicKey : string;
  opt_privateKey : string;
  opt_dbName : string;
  opt_collectionName : string;
  opt_dimensions : Z
}.

Definition index_request (opts : Options) : Request :=
  {| url := "https://cloud.mongodb.com/api/atlas/v1.0/groups/"
            ++ opt_projectId opts ++ "/fts/indexes";
     publicKey := opt_publicKey opts;
     privateKey := opt_privateKey opts;
     body_collectionName := opt_collectionName opts;
     body_database := opt_dbName opts;
     body_name := opt_collectionName opts ++ "_vector_search";
     body_dimensions := opt_dimensions opts |}.

(** [createAtlasSearchIndexIfRequested] of [vector_index.ts] and
    [createAtlasIndex] of [create_atlas_indexes.ts]: post the request inside
    a [try]; a response that is not [ok] has its text read for the log and
    gives [false]; anything thrown gives [false]. *)
Definition createAtlasSearchIndexIfRequested
    (fetch : Request -> result Response) (opts : Options) : result bool :=
  match
    bind_result (fetch (index_request opts)) (fun res =>
      if negb (ok res) then bind_result (text res) (fun _ => Ok false)
      else Ok true)
  with
  | Ok b => Ok b
  | Throw _ => Ok false
  end.
End Atlas.

(** ** Loading the input files ([loader.ts]) *)

Module Loader.
Section Loader.
Variable Doc : Type.
(** [new TextLoader(fp).load()]. *)
Variable load : string -> result (list Doc).

(** The loop over [filePaths]: each file is loaded inside its own [try];
    what it yields is pushed onto [allRawDocs], and a file that throws is
    logged and passed over. *)
Definition load_all (filePaths : list string) : list Doc :=
  fold_left
    (fun allRawDocs fp =>
       match load fp with
       | Ok rawDocs => allRawDocs ++ rawDocs
       | Throw _ => allRawDocs
       end)
    filePaths [].

(** The documents a path contributes: those it loads, none when it throws. *)
Definition loaded_from (fp : string) : list Doc :=
  match load fp with
  | Ok rawDocs => rawDocs
  | Throw _ => []
  end.
End Loader.
End Loader.

(** ** The states of the service during a call of [query] *)

Module Pipeline.
Import Rag.
Section Pipeline.
Context {num : Type} `{JsNumber num}.

(** The service once [this.chain] is there. *)
Definition with_chain (this : RAGService num) : RAGService num :=
  match chain this with
  | None => set_chain (Some RunnableSequence_from) this
  | Some _ => this
  end.

(** The service when the chain is invoked: the chain is there and the
    question has been pushed. *)
Definition at_invoke (this : RAGService num) (q : string) : RAGService num :=
  set_memory (pushed_memory this {| role := user; content := q |})
             (with_chain this).
End Pipeline.
End Pipeline.

(** ** Fixtures: a two-chunk corpus and services built on it *)

Module Fixtures.
Import Rag.

Definition vacation : Row float :=
  {| Retriever.content := "Vacation: 20 days/year.";
     Retriever.metadata := [("source", "policy.txt")];
     embedding := [1%float; 0%float] |}.

Definition dress_code : Row float :=
  {| Retriever.content := "Dress code: casual.";
     Retriever.metadata := [("source", "policy.txt")];
     embedding := [0%float; 1%float] |}.

Definition vacation_copy : Row float :=
  {| Retriever.content := "Vacation: 20 days/year. (copy)";
     Retriever.metadata := [("source", "handbook.txt")];
     embedding := [1%float; 0%float] |}.

(** A stored vector and a query vector whose squares overflow:
    [2 ** 600] is finite, its square is [Infinity]. *)
Definition huge : Row float :=
  {| Retriever.content := "huge";
     Retriever.metadata := [];
     embedding := [0x1p+600%float] |}.

Definition unit_row : Row float :=
  {| Retriever.content := "unit";
     Retriever.metadata := [];
     embedding := [1%float] |}.

Definition two_three : Row float :=
  {| Retriever.content := "two-three";
     Retriever.metadata := [];
     embedding := [2%float; 3%float] |}.

Definition embed_one (t : string) : result (list float) :=
  if String.prefix "Vacation" t then Ok [1%float; 0%float]
  else if String.prefix "Dress" t then Ok [0%float; 1%float]
  else Ok [0.5%float; 0.25%float].

(** A provider with the single-text method only. *)
Definition single_provider : Embeddings float :=
  {| embedQuery := Some embed_one; embedDocuments := None |}.

Definition the_retriever : SimpleMongoRetriever float :=
  {| collection := [vacation; dress_code];
     embeddings := single_provider;
     topK := 6 |}.

Definition failing_model (p : PromptInput) : result string :=
  Throw (Error "503 Service Unavailable").

Definition echo_model (p : PromptInput) : result string :=
  Ok ("You asked: " ++ question p)%string.

Definition fresh_service : RAGService float :=
  {| retriever := None; chain := None; memory := [];
     maxMemoryTurns := 10; model := echo_model |}.

Definition service_with_failing_model : RAGService float :=
  {| retriever := Some the_retriever; chain := None;
     memory := [{| role := user; content := "Hello" |};
                {| role := assistant; content := "Hi, how can I help?" |}];
     maxMemoryTurns := 10; model := failing_model |}.

(** A service whose limit has been set below zero, on an empty memory. *)
Definition service_with_negative_limit : RAGService float :=
  {| retriever := Some the_retriever; chain := None; memory := [];
     maxMemoryTurns := -1; model := failing_model |}.

(** The service after [setMaxMemoryTurns(0)] on an empty memory. *)
Definition service_without_memory : RAGService float :=
  {| retriever := Some the_retriever; chain := None; memory := [];
     maxMemoryTurns := 0; model := echo_model |}.
End Fixtures.

(** Both search flags set to a value other than ["true"], and a loaded
    module. *)
Module SearchFixtures.
Import Search.

Definition loaded : Loaded :=
  {| mongoUri := "mongodb://localhost:27017";
     dbName := "OnboardIQ_bot";
     collName := "ClusterMM";
     indexName := "ClusterMM_bm25_keyword" |}.

(** Both flags are set to ["false"]. *)
Definition both_disabled : Env :=
  fun var =>
    if String.eqb var "BM25_SEARCH_ENABLED" then Some "false"
    else if String.eqb var "VECTOR_SEARCH_ENABLED" then Some "False"
    else None.

Definition empty_database : MongoClient (num := float) unit :=
  {| connect := fun _ => Ok tt;
     aggregate := fun _ _ _ => Ok [];
     close := Ok tt |}.
End SearchFixtures.

(** More services, a provider with a short batch response, and a database
    whose aggregation throws. *)
Module MoreFixtures.
Import Rag.

(** An initialised service with an answering model and one past exchange. *)
Definition answering_service : RAGService float :=
  {| retriever := Some Fixtures.the_retriever; chain := None;
     memory := [{| role := user; content := "Hello" |};
                {| role := assistant; content := "Hi, how can I help?" |}];
     maxMemoryTurns := 1; model := Fixtures.echo_model |}.

(** A model that repeats the history it is given. *)
Definition history_model (p : PromptInput) : result string :=
  Ok (conversation_history p).

Definition history_service : RAGService float :=
  {| retriever := Some Fixtures.the_retriever; chain := None;
     memory := [{| role := user; content := "Hello" |};
                {| role := assistant; content := "Hi, how can I help?" |}];
     maxMemoryTurns := 10; model := history_model |}.
End MoreFixtures.

Module IngestFixtures.
(** A batch method that returns a single vector whatever it is given. *)
Definition short_batch (texts : list string) : result (list (list float)) :=
  Ok [[1%float; 0%float]].

Definition short_provider : Embeddings float :=
  {| embedQuery := None; embedDocuments := Some short_batch |}.

Definition two_chunks : list Document :=
  [ {| pageContent := "Vacation: 20 days/year."; doc_metadata := [] |};
    {| pageContent := "Dress code: casual."; doc_metadata := [] |} ].
End IngestFixtures.

Module SearchFixtures2.
Import Search.

(** No flag is set. *)
Definition no_flags : Env := fun _ => None.

(** A database whose aggregation throws. *)
Definition failing_aggregation : MongoClient (num := float) unit :=
  {| connect := fun _ => Ok tt;
     aggregate := fun _ _ _ => Throw (Error "index not found");
     close := Ok tt |}.
End SearchFixtures2.

(** A collection in which a chunk was stored without its vector, and one
    that cannot be read. *)
Module StoreFixtures.
Definition without_embedding : Store.StoredRow float :=
  {| Store.content := "Dress code: casual.";
     Store.metadata := [("source", "policy.txt")];
     Store.embedding := Store.null |}.

Definition half_embedded : Store.SimpleMongoRetriever float :=
  {| Store.find := Ok [Store.stored Fixtures.vacation; without_embedding];
     Store.embeddings := Fixtures.single_provider;
     Store.topK := 6 |}.

Definition unreachable : Store.SimpleMongoRetriever float :=
  {| Store.find := Throw (Error "connect ECONNREFUSED 127.0.0.1:27017");
     Store.embeddings := Fixtures.single_provider;
     Store.topK := 6 |}.
End StoreFixtures.

(** * Properties *)

(** ** Arrays: [slice] and the sequential loop *)

Module ArrayFacts.
Section ArrayFacts.
Variable A : Type.
Implicit Types l : list A.

(** [l.slice(start)] drops a prefix and keeps everything after it. *)
Lemma slice_from (start : Z) l :
  slice start None l
  = skipn (Z.to_nat (relative_index (Z.of_nat (List.length l)) start)) l.
Proof.
  unfold slice. apply firstn_all2. rewrite length_skipn.
  unfold relative_index. destruct (start <? 0)%Z; lia.
Qed.

(** [l.slice(-n)] for [n >= 1] keeps the last [n] elements. *)
Lemma slice_last (n : Z) l :
  (1 <= n)%Z ->
  slice (- n) None l = skipn (List.length l - Z.to_nat n) l.
Proof.
  intros Hn. rewrite slice_from. f_equal. unfold relative_index.
  destruct (Z.ltb_spec (- n) 0); lia.
Qed.

(** [l.slice(-0)] is [l.slice(0)]: the whole array. *)
Lemma slice_minus_zero l : slice (- 0) None l = l.
Proof. rewrite slice_from. unfold relative_index. simpl. now rewrite Z.min_l by lia. Qed.

(** [l.slice(0, k)] is a prefix of [l]; for [0 <= k] it has
    [min k (length l)] elements. *)
Lemma slice_prefix (k : Z) l :
  slice 0 (Some k) l
  = firstn (Z.to_nat (relative_index (Z.of_nat (List.length l)) k)) l.
Proof.
  unfold slice. replace (relative_index _ 0) with 0%Z
    by (unfold relative_index; simpl; lia).
  simpl. now rewrite Z.sub_0_r.
Qed.

Lemma slice_prefix_all (k : Z) l :
  (Z.of_nat (List.length l) <= k)%Z -> slice 0 (Some k) l = l.
Proof.
  intros Hk. rewrite slice_prefix. apply firstn_all2.
  unfold relative_index. destruct (Z.ltb_spec k 0); lia.
Qed.

(** A non-positive start keeps the element pushed last. *)
Lemma slice_keeps_pushed (start : Z) l (x : A) :
  (start <= 0)%Z ->
  exists older, slice start None (l ++ [x]) = older ++ [x].
Proof.
  intros Hs. rewrite slice_from.
  set (k := Z.to_nat _).
  assert (Hk : k <= List.length l).
  { unfold k, relative_index. rewrite length_app. simpl.
    destruct (Z.ltb_spec start 0); lia. }
  exists (skipn k l). rewrite skipn_app.
  replace (k - List.length l) with 0 by lia. reflexivity.
Qed.
End ArrayFacts.

Section ForOfPush.
Variables A B : Type.
Variable f : A -> result B.

(** The loop returns [vs] exactly when every call returns and [vs] lists
    the values in the order of the inputs. *)
Lemma for_of_push_ok (l : list A) (vs : list B) :
  for_of_push f l = Ok vs <-> Forall2 (fun t v => f t = Ok v) l vs.
Proof.
  revert vs. induction l as [|t l IH]; intros vs; simpl.
  - split.
    + intros E. injection E as <-. constructor.
    + intros F. inversion F. reflexivity.
  - destruct (f t) as [v|e] eqn:Ef; simpl.
    + destruct (for_of_push f l) as [vs'|e] eqn:El; simpl.
      * split.
        -- intros E. injection E as <-. constructor; [assumption|].
           now apply IH.
        -- intros F. inversion F as [|? v0 ? vs0 Hv Hvs]; subst.
           apply IH in Hvs. congruence.
      * split; [discriminate|].
        intros F. inversion F as [|? v0 ? vs0 Hv Hvs]; subst.
        apply IH in Hvs. discriminate.
    + split; [discriminate|].
      intros F. inversion F; subst. congruence.
Qed.

Lemma for_of_push_nth (l : list A) (vs : list B) (i : nat) (t : A) :
  for_of_push f l = Ok vs ->
  nth_error l i = Some t ->
  exists v, nth_error vs i = Some v /\ f t = Ok v.
Proof.
  rewrite for_of_push_ok. intros F. revert i.
  induction F as [|t0 v0 l vs Hv F IH]; intros i Hi.
  - destruct i; discriminate.
  - destruct i as [|i]; simpl in *.
    + injection Hi as <-. eauto.
    + eauto.
Qed.

Lemma for_of_push_total (l : list A) :
  (forall t, In t l -> exists v, f t = Ok v) ->
  exists vs, for_of_push f l = Ok vs.
Proof.
  induction l as [|t l IH]; intros Hall; simpl; [eauto|].
  destruct (Hall t) as [v Hv]; [now left|]. rewrite Hv. simpl.
  destruct IH as [vs Hvs]; [intros; apply Hall; now right|].
  rewrite Hvs. simpl. eauto.
Qed.
End ForOfPush.
End ArrayFacts.

(** ** The answer pipeline: [RAGService.query] *)

Module QueryFacts.
Import Rag.

Section QueryFacts.
Context {num : Type} `{JsNumber num}.

Lemma push_then_trim (t : Turn) (this : RAGService num) :
  bind (memory_push t) (fun _ => memory_trim) this
  = (Ok tt, set_memory (pushed_memory this t) this).
Proof.
  unfold bind, memory_push, memory_trim, modify, pushed_memory; simpl.
  destruct (_ >? _)%Z; reflexivity.
Qed.

End QueryFacts.
End QueryFacts.

Module PipelineFacts.
Import Rag.
Import Pipeline.

Section PipelineFacts.
Context {num : Type} `{JsNumber num}.

Lemma with_chain_fields (this : RAGService num) :
  retriever (with_chain this) = retriever this
  /\ memory (with_chain this) = memory this
  /\ maxMemoryTurns (with_chain this) = maxMemoryTurns this
  /\ model (with_chain this) = model this
  /\ chain (with_chain this) <> None.
Proof.
  unfold with_chain. destruct (chain this) eqn:E; simpl; rewrite ?E;
    repeat split; discriminate.
Qed.

Lemma pushed_memory_with_chain (this : RAGService num) (t : Turn) :
  pushed_memory (with_chain this) t = pushed_memory this t.
Proof.
  destruct (with_chain_fields this) as (_ & Hm & Hx & _).
  unfold pushed_memory. now rewrite Hm, Hx.
Qed.

(** Invoking the chain reads the service and leaves it as it is. *)
Lemma chain_invoke_value (q : string) (this : RAGService num)
    (r : SimpleMongoRetriever num) :
  retriever this = Some r ->
  chain_invoke q this
  = (bind_result (_getRelevantDocuments r q) (fun docs =>
       model this {| context := combineDocuments docs;
                     conversation_history := buildConversationHistory this;
                     question := q |}),
     this).
Proof.
  intros Hr. unfold chain_invoke, bind, get, lift. rewrite Hr.
  destruct (_getRelevantDocuments r q); reflexivity.
Qed.

(** [query] on an initialised service, step by step. *)
Lemma query_unfold (q : string) (this : RAGService num)
    (r : SimpleMongoRetriever num) :
  retriever this = Some r ->
  query q this
  = match fst (chain_invoke q (at_invoke this q)) with
    | Ok answer =>
        (Ok answer,
         set_memory (pushed_memory (at_invoke this q)
                       {| role := assistant; content := answer |})
                    (at_invoke this q))
    | Throw _ => (Ok error_message, at_invoke this q)
    end.
Proof.
  intros Hr.
  assert (Hr1 : retriever (at_invoke this q) = Some r).
  { unfold at_invoke. simpl. destruct (with_chain_fields this) as (E & _).
    now rewrite E. }
  unfold query. unfold bind at 1. unfold get at 1. rewrite Hr.
  unfold bind at 1.
  replace ((match chain this with
            | None => modify (set_chain (Some RunnableSequence_from))
            | Some _ => ret tt
            end) this) with (@Ok unit tt, with_chain this)
    by (unfold with_chain, modify, ret; destruct (chain this); reflexivity).
  unfold try_catch.
  unfold bind at 1. unfold memory_push at 1, modify at 1.
  unfold bind at 1. unfold memory_trim at 1, modify at 1. cbv beta iota.
  destruct (with_chain_fields this) as (_ & Hm & Hx & _).
  match goal with
  | |- context [bind (chain_invoke q) _ ?s] =>
      assert (Hs : s = at_invoke this q)
  end.
  { unfold at_invoke, pushed_memory. cbn [memory maxMemoryTurns set_memory].
    cbv zeta. rewrite Hm, Hx. destruct (_ >? _)%Z; reflexivity. }
  rewrite Hs. clear Hs. unfold bind at 1.
  rewrite (@chain_invoke_value q _ r Hr1).
  cbn [fst].
  destruct (bind_result _ _) as [answer|e]; [|reflexivity].
  unfold bind, memory_push, memory_trim, modify, ret, pushed_memory.
  cbn [memory maxMemoryTurns set_memory]. cbv zeta.
  destruct (_ >? _)%Z; reflexivity.
Qed.
End PipelineFacts.
End PipelineFacts.

(** C6.  Before the vector store is initialised ([this.retriever] is
    [undefined]), [query] returns the fixed string
    ["Vector store not initialized."] as its value, whatever the question; it
    does not throw. *)
Theorem query_before_initialization
    (num : Type) (N : JsNumber num) (this : Rag.RAGService num) (q : string) :
  Rag.retriever this = None ->
  fst (Rag.query q this) = Ok "Vector store not initialized.".
Proof.
  intros Hr. unfold Rag.query, Rag.bind, Rag.get. now rewrite Hr.
Qed.

(** C10.  Before the vector store is initialised, [query] leaves the service
    as it found it: the memory is unchanged, the question is not recorded
    and no other field is written. *)
Theorem query_before_initialization_frame
    (num : Type) (N : JsNumber num) (this : Rag.RAGService num) (q : string) :
  Rag.retriever this = None ->
  snd (Rag.query q this) = this
  /\ Rag.memory (snd (Rag.query q this)) = Rag.memory this.
Proof.
  intros Hr. unfold Rag.query, Rag.bind, Rag.get. rewrite Hr. simpl. tauto.
Qed.

(** C3, as the specification words it: with the limit set to [-1] and an
    empty memory, the question is pushed and the trimming that follows,
    [slice(2)] of a one-element array, drops it again.  The provider then
    throws, [query] returns its error string, and the question is not in the
    memory. *)
Lemma question_dropped_at_negative_limit :
  ~ (forall (this : Rag.RAGService float) (r : SimpleMongoRetriever float)
            (q : string) (docs : list Document) (e : JsError),
       let asked := {| Rag.role := Rag.user; Rag.content := q |} in
       let invoked := Rag.set_memory (Rag.pushed_memory this asked) this in
       Rag.retriever this = Some r ->
       _getRelevantDocuments r q = Ok docs ->
       Rag.model this
         {| Rag.context := Rag.combineDocuments docs;
            Rag.conversation_history := Rag.buildConversationHistory invoked;
            Rag.question := q |} = Throw e ->
       In asked (Rag.memory (snd (Rag.query q this)))).
Proof.
  intros Hclaim.
  assert (Hmem : Rag.memory (snd (Rag.query "How many vacation days?"
                                     Fixtures.service_with_negative_limit)) = [])
    by (vm_compute; reflexivity).
  specialize (Hclaim Fixtures.service_with_negative_limit Fixtures.the_retriever
                "How many vacation days?"
                [ {| pageContent := "Vacation: 20 days/year.";
                     doc_metadata := [("source", "policy.txt")] |};
                  {| pageContent := "Dress code: casual.";
                     doc_metadata := [("source", "policy.txt")] |} ]
                (Error "503 Service Unavailable")).
  cbv zeta in Hclaim. rewrite Hmem in Hclaim.
  apply Hclaim.
  - reflexivity.
  - vm_compute. reflexivity.
  - reflexivity.
Qed.

(** C3, amended.  With the vector store initialised and documents
    retrieved, when the generation provider throws on the prompt built for
    this question, [query] returns the fixed string
    ["An error occurred while processing your request."] as its value and
    does not throw; the memory then holds the former turns followed by the
    user's question, trimmed as after every push, and no assistant turn has
    been added.  For a limit that is not negative the question is the last
    entry of the memory. *)
Theorem query_provider_failure
    (num : Type) (N : JsNumber num) (this : Rag.RAGService num)
    (r : SimpleMongoRetriever num) (q : string)
    (docs : list Document) (e : JsError) :
  let asked := {| Rag.role := Rag.user; Rag.content := q |} in
  let invoked := Rag.set_memory (Rag.pushed_memory this asked) this in
  Rag.retriever this = Some r ->
  _getRelevantDocuments r q = Ok docs ->
  Rag.model this
    {| Rag.context := Rag.combineDocuments docs;
       Rag.conversation_history := Rag.buildConversationHistory invoked;
       Rag.question := q |} = Throw e ->
  fst (Rag.query q this) = Ok "An error occurred while processing your request."
  /\ Rag.memory (snd (Rag.query q this)) = Rag.pushed_memory this asked
  /\ ((0 <= Rag.maxMemoryTurns this)%Z ->
      exists older, Rag.memory (snd (Rag.query q this)) = older ++ [asked]).
Proof.
  intros asked invoked Hr Hdocs Hmodel.
  destruct (PipelineFacts.with_chain_fields this) as (Hcr & Hcm & Hcx & Hcmod & _).
  assert (Hhist : Rag.buildConversationHistory (Pipeline.at_invoke this q)
                  = Rag.buildConversationHistory invoked).
  { unfold Rag.buildConversationHistory, Pipeline.at_invoke, invoked.
    cbn [Rag.memory Rag.maxMemoryTurns Rag.set_memory]. now rewrite Hcx. }
  assert (Hinv : fst (Rag.chain_invoke q (Pipeline.at_invoke this q)) = Throw e).
  { rewrite (@PipelineFacts.chain_invoke_value num N q _ r).
    - cbn [fst]. rewrite Hdocs. cbn [bind_result]. rewrite Hhist.
      unfold Pipeline.at_invoke. cbn [Rag.model Rag.set_memory].
      rewrite Hcmod. exact Hmodel.
    - unfold Pipeline.at_invoke. cbn [Rag.retriever Rag.set_memory].
      now rewrite Hcr. }
  rewrite (PipelineFacts.query_unfold q this Hr), Hinv.
  unfold Pipeline.at_invoke. cbn [fst snd Rag.memory Rag.set_memory].
  fold asked.
  split; [reflexivity|]. split; [reflexivity|].
  intros Hmax. unfold Rag.pushed_memory.
  destruct (_ >? _)%Z; [|eauto].
  apply ArrayFacts.slice_keeps_pushed. lia.
Qed.

Lemma query_before_initialization_witness :
  Rag.retriever Fixtures.fresh_service = None
  /\ fst (Rag.query "How many vacation days?" Fixtures.fresh_service)
     = Ok "Vector store not initialized.".
Proof.
  split; [reflexivity|].
  apply (@query_before_initialization float double Fixtures.fresh_service).
  reflexivity.
Defined.

Lemma query_before_initialization_frame_witness :
  Rag.retriever Fixtures.fresh_service = None
  /\ snd (Rag.query "How many vacation days?" Fixtures.fresh_service)
     = Fixtures.fresh_service.
Proof.
  split; [reflexivity|].
  apply (@query_before_initialization_frame float double Fixtures.fresh_service).
  reflexivity.
Defined.

Lemma query_provider_failure_witness :
  fst (Rag.query "How many vacation days?" Fixtures.service_with_failing_model)
  = Ok "An error occurred while processing your request."
  /\ Rag.memory
       (snd (Rag.query "How many vacation days?" Fixtures.service_with_failing_model))
     = [{| Rag.role := Rag.user; Rag.content := "Hello" |};
        {| Rag.role := Rag.assistant; Rag.content := "Hi, how can I help?" |};
        {| Rag.role := Rag.user; Rag.content := "How many vacation days?" |}]
  /\ exists older,
       Rag.memory
         (snd (Rag.query "How many vacation days?" Fixtures.service_with_failing_model))
       = older ++ [{| Rag.role := Rag.user; Rag.content := "How many vacation days?" |}].
Proof.
  destruct (@query_provider_failure float double
              Fixtures.service_with_failing_model Fixtures.the_retriever
              "How many vacation days?"
              [ {| pageContent := "Vacation: 20 days/year.";
                   doc_metadata := [("source", "policy.txt")] |};
                {| pageContent := "Dress code: casual.";
                   doc_metadata := [("source", "policy.txt")] |} ]
              (Error "503 Service Unavailable"))
    as (Hret & Hmem & Hlast).
  - reflexivity.
  - vm_compute. reflexivity.
  - reflexivity.
  - split; [exact Hret|]. split; [rewrite Hmem; reflexivity|].
    apply Hlast. vm_compute. discriminate.
Defined.

(** ** The search adapters and their runtime flags *)

(** C7, as the specification words it: the disabled keyword search would
    throw an error named [FeatureDisabledError].  It does not: the error is a
    plain [Error]. *)
Lemma disabled_search_error_is_not_named :
  ~ (forall (m : Search.Loaded) (env : Search.Env)
            (client : Search.MongoClient (num := float) unit) (query : string),
        Search.flag_enabled env "BM25_SEARCH_ENABLED" = false ->
        exists msg,
          snd (Search.textSearch m env client query None None None)
          = Throw {| name := "FeatureDisabledError"; message := msg |}).
Proof.
  intros Hclaim.
  destruct (Hclaim SearchFixtures.loaded SearchFixtures.both_disabled
              SearchFixtures.empty_database "license update sandbox")
    as [msg Hmsg]; [reflexivity|].
  discriminate Hmsg.
Qed.

(** C7, amended.  When [BM25_SEARCH_ENABLED] (for [textSearch]) or
    [VECTOR_SEARCH_ENABLED] (for [vectorSearch]) is set to anything but
    ["true"], the function logs one line and throws a plain [Error] whose
    message names the flag; no connection is opened, no aggregation is run,
    and nothing is returned. *)
Theorem disabled_search_fails_fast
    (num : Type) (N : JsNumber num) (Doc : Type)
    (m : Search.Loaded) (env : Search.Env)
    (client : Search.MongoClient (num := num) Doc)
    (query : string) (path_arg : option Search.PathArg) (limit : option Z)
    (queryVector : list num) (k : option Z) (filter : option Search.Filter) :
  (Search.flag_enabled env "BM25_SEARCH_ENABLED" = false ->
   let out := Search.textSearch m env client query path_arg limit filter in
   snd out
   = Throw {| name := "Error";
              message := "BM25 text search disabled via BM25_SEARCH_ENABLED=false" |}
   /\ forallb (fun e => negb (Search.is_external_call e)) (fst out) = true)
  /\
  (Search.flag_enabled env "VECTOR_SEARCH_ENABLED" = false ->
   let out := Search.vectorSearch m env client queryVector k filter in
   snd out
   = Throw {| name := "Error";
              message := "Vector search disabled via VECTOR_SEARCH_ENABLED=false" |}
   /\ forallb (fun e => negb (Search.is_external_call e)) (fst out) = true).
Proof.
  split; intros Hflag; unfold Search.textSearch, Search.vectorSearch;
    rewrite Hflag; simpl; split; reflexivity.
Qed.

Lemma disabled_search_fails_fast_witness :
  Search.flag_enabled SearchFixtures.both_disabled "BM25_SEARCH_ENABLED" = false
  /\ Search.flag_enabled SearchFixtures.both_disabled "VECTOR_SEARCH_ENABLED" = false
  /\ Search.textSearch SearchFixtures.loaded SearchFixtures.both_disabled
       SearchFixtures.empty_database "license update sandbox" None (Some 5%Z) None
     = ([Search.console_log
           ["[INFO] "; "BM25 text search disabled via BM25_SEARCH_ENABLED=false"]],
        Throw (Error "BM25 text search disabled via BM25_SEARCH_ENABLED=false"))
  /\ snd (Search.vectorSearch SearchFixtures.loaded SearchFixtures.both_disabled
            SearchFixtures.empty_database [1%float; 0%float] None None)
     = Throw (Error "Vector search disabled via VECTOR_SEARCH_ENABLED=false").
Proof.
  destruct (@disabled_search_fails_fast float double unit
              SearchFixtures.loaded SearchFixtures.both_disabled
              SearchFixtures.empty_database "license update sandbox" None (Some 5%Z)
              [1%float; 0%float] None None) as [Htext Hvector].
  split; [reflexivity|]. split; [reflexivity|]. split; [reflexivity|].
  exact (proj1 (Hvector eq_refl)).
Defined.

(** ** The sequential embedding fallback *)

(** C8.  When the provider has no batch method ([embedDocuments]) but has
    [embedQuery], both ingestion paths embed the texts one by one: they
    return a list [vs] exactly when every call returns and [vs] pairs with
    the texts position by position, so that the i-th vector is the embedding
    of the i-th text; and they do return when every call returns. *)
Theorem sequential_fallback_preserves_order
    (num : Type) (N : JsNumber num) (e : Embeddings num)
    (f : string -> result (list num)) (texts : list string) :
  embedDocuments e = None ->
  embedQuery e = Some f ->
  Rag.embed_texts e texts = VectorIndex.embed_texts e texts
  /\ (forall vs, Rag.embed_texts e texts = Ok vs
                 <-> Forall2 (fun t v => f t = Ok v) texts vs)
  /\ (forall vs i t,
        Rag.embed_texts e texts = Ok vs ->
        nth_error texts i = Some t ->
        exists v, nth_error vs i = Some v /\ f t = Ok v)
  /\ ((forall t, In t texts -> exists v, f t = Ok v) ->
      exists vs, Rag.embed_texts e texts = Ok vs
                 /\ List.length vs = List.length texts).
Proof.
  intros Hbatch Hsingle.
  assert (Hrag : Rag.embed_texts e texts = for_of_push f texts).
  { unfold Rag.embed_texts. rewrite Hbatch, Hsingle. reflexivity. }
  assert (Hidx : VectorIndex.embed_texts e texts = for_of_push f texts).
  { unfold VectorIndex.embed_texts. now rewrite Hbatch, Hsingle. }
  rewrite Hrag, Hidx. repeat split.
  - apply ArrayFacts.for_of_push_ok.
  - apply ArrayFacts.for_of_push_ok.
  - intros vs i t. apply ArrayFacts.for_of_push_nth.
  - intros Hall. destruct (ArrayFacts.for_of_push_total f texts Hall) as [vs Hvs].
    exists vs. split; [assumption|].
    apply ArrayFacts.for_of_push_ok in Hvs.
    symmetry. eapply Forall2_length; eassumption.
Qed.

Lemma sequential_fallback_preserves_order_witness :
  Rag.embed_texts Fixtures.single_provider ["Vacation"; "Dress code"]
  = VectorIndex.embed_texts Fixtures.single_provider ["Vacation"; "Dress code"]
  /\ Rag.embed_texts Fixtures.single_provider ["Vacation"; "Dress code"]
     = Ok [[1%float; 0%float]; [0%float; 1%float]].
Proof.
  destruct (@sequential_fallback_preserves_order float double
              Fixtures.single_provider Fixtures.embed_one
              ["Vacation"; "Dress code"] eq_refl eq_refl) as (Hsame & _).
  split; [exact Hsame | reflexivity].
Defined.

(** ** The memory window *)

Module MemoryFacts.
Import Rag.

Section MemoryFacts.
Context {num : Type} `{JsNumber num}.

Lemma lastn_length {A} (n : nat) (l : list A) :
  List.length (lastn n l) = Nat.min n (List.length l).
Proof. unfold lastn. rewrite length_skipn. lia. Qed.

Lemma lastn_app_lastn {A} (n : nat) (l l2 : list A) :
  lastn n (lastn n l ++ l2) = lastn n (l ++ l2).
Proof.
  unfold lastn at 2.
  replace (skipn (List.length l - n) l ++ l2)
    with (skipn (List.length l - n) (l ++ l2))
    by (rewrite skipn_app;
        now replace (List.length l - n - List.length l) with 0 by lia).
  unfold lastn. rewrite skipn_skipn, length_skipn, !length_app.
  f_equal. lia.
Qed.

(** With a limit of at least one pair, a push followed by the trimming test
    keeps the last [2 * maxMemoryTurns] turns. *)
Lemma pushed_memory_window (this : RAGService num) (t : Turn) :
  (1 <= maxMemoryTurns this)%Z ->
  Rag.pushed_memory this t
  = lastn (Z.to_nat (maxMemoryTurns this * 2)) (memory this ++ [t]).
Proof.
  intros Hmax. unfold Rag.pushed_memory, lastn.
  destruct (Z.gtb_spec (Z.of_nat (List.length (memory this ++ [t])))
                       (maxMemoryTurns this * 2)) as [Hgt|Hle].
  - replace (- maxMemoryTurns this * 2)%Z with (- (maxMemoryTurns this * 2))%Z
      by lia.
    apply ArrayFacts.slice_last. lia.
  - now replace (List.length (memory this ++ [t])
                 - Z.to_nat (maxMemoryTurns this * 2)) with 0 by lia.
Qed.

(** For a limit of at least one pair the window behaves as documented:
    after any appends the memory is the last [2 * maxMemoryTurns] turns of
    everything appended, oldest first, and the history renders exactly
    those. *)
Lemma append_turns_window (ts : list Turn) (this : RAGService num) :
  (1 <= maxMemoryTurns this)%Z ->
  (Z.of_nat (List.length (memory this)) <= maxMemoryTurns this * 2)%Z ->
  let n := Z.to_nat (maxMemoryTurns this * 2) in
  let after := snd (append_turns ts this) in
  fst (append_turns ts this) = Ok tt
  /\ memory after = lastn n (memory this ++ ts)
  /\ List.length (memory after) <= n
  /\ buildConversationHistory after
     = String.concat newline (map render_turn (lastn n (memory this ++ ts))).
Proof.
  revert this. induction ts as [|t ts IH]; intros this Hmax Hlen n after.
  - assert (Hall : lastn n (memory this ++ []) = memory this).
    { unfold lastn. rewrite app_nil_r.
      now replace (List.length (memory this) - n) with 0 by (unfold n; lia). }
    subst after. simpl. rewrite Hall. repeat split; [unfold n; lia|].
    unfold buildConversationHistory.
    replace (- maxMemoryTurns this * 2)%Z with (- (maxMemoryTurns this * 2))%Z
      by lia.
    rewrite ArrayFacts.slice_last by lia. fold n.
    now replace (List.length (memory this) - n) with 0 by (unfold n; lia).
  - set (this1 := set_memory (Rag.pushed_memory this t) this).
    assert (Hstep : append_turns (t :: ts) this = append_turns ts this1)
      by (simpl; unfold bind at 1; now rewrite QueryFacts.push_then_trim).
    subst after. rewrite Hstep.
    assert (Hmem1 : memory this1 = lastn n (memory this ++ [t]))
      by (unfold this1; simpl; now apply pushed_memory_window).
    assert (Hlen1 : (Z.of_nat (List.length (memory this1))
                     <= maxMemoryTurns this1 * 2)%Z).
    { rewrite Hmem1, lastn_length. unfold this1, n. simpl. lia. }
    destruct (IH this1 Hmax Hlen1) as (Hok & Hm & Hl & Hh).
    change (maxMemoryTurns this1) with (maxMemoryTurns this) in *.
    fold n in Hm, Hl, Hh.
    assert (Hwin : lastn n (memory this1 ++ ts) = lastn n (memory this ++ t :: ts)).
    { rewrite Hmem1, lastn_app_lastn, <- app_assoc. reflexivity. }
    rewrite Hwin in Hm, Hh. auto.
Qed.
End MemoryFacts.
End MemoryFacts.

(** C4.  With the limit set to zero ([setMaxMemoryTurns(0)]) the trimming
    does nothing, because [slice(-0)] is [slice(0)]: after one answered
    question the memory holds two turns, more than [2 * 0], and the history
    renders both of them. *)
Theorem memory_not_trimmed_at_zero :
  let after := snd (Rag.query "How many vacation days?"
                      Fixtures.service_without_memory) in
  Rag.maxMemoryTurns after = 0%Z
  /\ Rag.memory after
     = [{| Rag.role := Rag.user; Rag.content := "How many vacation days?" |};
        {| Rag.role := Rag.assistant;
           Rag.content := "You asked: How many vacation days?" |}]
  /\ (Z.of_nat (List.length (Rag.memory after)) > 2 * Rag.maxMemoryTurns after)%Z
  /\ Rag.buildConversationHistory after
     = ("User: How many vacation days?" ++ newline
        ++ "Assistant: You asked: How many vacation days?")%string.
Proof.
  vm_compute. repeat split.
Qed.

(** ** [Array.prototype.sort] with a consistent comparator *)

Module SortFacts.
Section SortFacts.
Context {num : Type} `{JsNumber num} {A : Type}.
Variable comparefn : A -> A -> num.

Local Notation "'before'" := (sorts_before comparefn).
Local Notation "'tie'" := (ties comparefn).

Lemma consistent_comparator_spec (u : list A) :
  consistent_comparator comparefn u = true ->
  asymmetric_on comparefn u /\ transitive_on comparefn u.
Proof.
  unfold consistent_comparator. rewrite andb_true_iff, !forallb_forall.
  intros [Hasym Htrans]. split.
  - intros x y Hx Hy Hxy.
    specialize (Hasym x Hx). rewrite forallb_forall in Hasym.
    specialize (Hasym y Hy). rewrite Hxy in Hasym. simpl in Hasym.
    now apply negb_true_iff.
  - intros x y z Hx Hy Hz Hxy Hyz.
    specialize (Htrans x Hx). rewrite forallb_forall in Htrans.
    specialize (Htrans y Hy). rewrite forallb_forall in Htrans.
    specialize (Htrans z Hz). rewrite Hxy, Hyz in Htrans. simpl in Htrans.
    now apply negb_true_iff.
Qed.

Lemma sort_insert_perm (x : A) (l : list A) :
  Permutation (sort_insert comparefn x l) (x :: l).
Proof.
  induction l as [|y l IH]; simpl; [reflexivity|].
  destruct (before y x); [|reflexivity].
  rewrite IH. apply perm_swap.
Qed.

(** Sorting rearranges the array and nothing else. *)
Lemma sort_perm (l : list A) : Permutation (sort comparefn l) l.
Proof.
  induction l as [|x l IH]; simpl; [reflexivity|].
  rewrite sort_insert_perm. now constructor.
Qed.

Section Consistent.
Variable u : list A.
Hypothesis Hasym : asymmetric_on comparefn u.
Hypothesis Htrans : transitive_on comparefn u.

Lemma sort_insert_sorted (x : A) (l : list A) :
  incl (x :: l) u ->
  StronglySorted (not_after comparefn) l ->
  StronglySorted (not_after comparefn) (sort_insert comparefn x l).
Proof.
  intros Hin Hsorted. induction Hsorted as [|y l Hl IH Hy]; simpl.
  - repeat constructor.
  - assert (Hxu : In x u) by (apply Hin; now left).
    assert (Hyu : In y u) by (apply Hin; right; now left).
    destruct (before y x) eqn:Hyx.
    + constructor.
      * apply IH. intros z [<-|Hz]; apply Hin; [now left | right; now right].
      * eapply Permutation_Forall; [symmetry; apply sort_insert_perm|].
        constructor; [|assumption].
        unfold not_after. now apply Hasym.
    + constructor; [now constructor|].
      constructor; [exact Hyx|].
      rewrite Forall_forall in *. intros z Hz. unfold not_after in *.
      apply (Htrans z y x); auto.
      apply Hin. right. now right.
Qed.

(** The sorted array is in comparator order: nothing is placed before
    an element that precedes it. *)
Lemma sort_sorted (l : list A) :
  incl l u -> StronglySorted (not_after comparefn) (sort comparefn l).
Proof.
  induction l as [|x l IH]; intros Hin; simpl; [constructor|].
  apply sort_insert_sorted.
  - intros z [<-|Hz]; [apply Hin; now left|].
    apply Hin. right.
    eapply Permutation_in; [apply sort_perm | exact Hz].
  - apply IH. intros z Hz. apply Hin. now right.
Qed.

Lemma sort_insert_stable (h x : A) (l : list A) :
  In h u -> incl (x :: l) u ->
  filter (tie h) (sort_insert comparefn x l) = filter (tie h) (x :: l).
Proof.
  intros Hh Hin. induction l as [|y l IH]; [reflexivity|].
  assert (Hxu : In x u) by (apply Hin; now left).
  assert (Hyu : In y u) by (apply Hin; right; now left).
  simpl. destruct (before y x) eqn:Hyx; [|reflexivity].
  simpl. rewrite IH
    by (intros z [<-|Hz]; apply Hin; [now left | right; now right]).
  simpl. destruct (tie h y) eqn:Hty, (tie h x) eqn:Htx; try reflexivity.
  exfalso. unfold ties in Hty, Htx.
  apply andb_true_iff in Hty as [_ Hyh]. apply andb_true_iff in Htx as [Hhx _].
  apply negb_true_iff in Hyh, Hhx.
  rewrite (Htrans y h x Hyu Hh Hxu Hyh Hhx) in Hyx. discriminate.
Qed.

(** The sort is stable: the elements that tie with a given one keep the
    order they had in the array. *)
Lemma sort_stable (h : A) (l : list A) :
  In h u -> incl l u ->
  filter (tie h) (sort comparefn l) = filter (tie h) l.
Proof.
  intros Hh. induction l as [|x l IH]; intros Hin; [reflexivity|].
  simpl sort. rewrite sort_insert_stable; auto.
  - simpl. rewrite IH by (intros z Hz; apply Hin; now right). reflexivity.
  - intros z [<-|Hz]; [apply Hin; now left|].
    apply Hin. right.
    eapply Permutation_in; [apply sort_perm | exact Hz].
Qed.
(** Two stable sorted arrangements of the same elements are the same
    array. *)
Lemma stable_sorted_unique (l1 l2 : list A) :
  incl l1 u ->
  Permutation l1 l2 ->
  StronglySorted (not_after comparefn) l1 ->
  StronglySorted (not_after comparefn) l2 ->
  (forall h, In h l1 -> filter (tie h) l1 = filter (tie h) l2) ->
  l1 = l2.
Proof.
  revert l2. induction l1 as [|x l1 IH]; intros l2 Hin Hperm Hs1 Hs2 Hst.
  - apply Permutation_nil in Hperm. now subst.
  - destruct l2 as [|y l2];
      [apply Permutation_sym, Permutation_nil_cons in Hperm; contradiction|].
    assert (Hxu : In x u) by (apply Hin; now left).
    assert (Hxx : before x x = false).
    { destruct (before x x) eqn:E; [|reflexivity].
      rewrite <- E at 1. exact (Hasym x x Hxu Hxu E). }
    apply StronglySorted_inv in Hs1 as [Hs1 Hx].
    apply StronglySorted_inv in Hs2 as [Hs2 Hy].
    rewrite Forall_forall in Hx, Hy.
    assert (Hyx : before y x = false).
    { assert (Hy1 : In y (x :: l1))
        by (eapply Permutation_in; [symmetry; exact Hperm | now left]).
      destruct Hy1 as [<-|Hy1]; [exact Hxx | exact (Hx y Hy1)]. }
    assert (Hxy : before x y = false).
    { assert (Hx2 : In x (y :: l2))
        by (eapply Permutation_in; [exact Hperm | now left]).
      destruct Hx2 as [<-|Hx2]; [exact Hxx | exact (Hy x Hx2)]. }
    assert (Hhead := Hst x (or_introl eq_refl)).
    assert (Htxx : tie x x = true) by (unfold ties; now rewrite Hxx).
    assert (Htxy : tie x y = true) by (unfold ties; now rewrite Hxy, Hyx).
    cbn [filter] in Hhead. rewrite Htxx, Htxy in Hhead.
    injection Hhead as <- _.
    f_equal. apply IH.
    + intros z Hz. apply Hin. now right.
    + exact (Permutation_cons_inv Hperm).
    + exact Hs1.
    + exact Hs2.
    + intros h Hh. specialize (Hst h (or_intror Hh)). cbn [filter] in Hst.
      destruct (tie h x); [now injection Hst | exact Hst].
Qed.

(** The result of [sort] is the only stable sorted arrangement of the
    array: whatever algorithm the engine runs, a consistent comparator
    leaves it no other result. *)
Lemma sort_unique (l l' : list A) :
  incl l u ->
  Permutation l' l ->
  StronglySorted (not_after comparefn) l' ->
  (forall h, In h l -> filter (tie h) l' = filter (tie h) l) ->
  l' = sort comparefn l.
Proof.
  intros Hin Hperm Hs Hst. apply stable_sorted_unique.
  - intros z Hz. apply Hin. eapply Permutation_in; [exact Hperm | exact Hz].
  - rewrite Hperm. symmetry. apply sort_perm.
  - exact Hs.
  - now apply sort_sorted.
  - intros h Hh.
    assert (Hl : In h l) by (eapply Permutation_in; [exact Hperm | exact Hh]).
    rewrite (Hst h Hl). symmetry. apply sort_stable; auto.
Qed.
End Consistent.
End SortFacts.

Section Lists.
Variable A : Type.

Lemma sorted_app (R : A -> A -> Prop) (l1 l2 : list A) :
  StronglySorted R (l1 ++ l2) ->
  StronglySorted R l1
  /\ forall a b, In a l1 -> In b l2 -> R a b.
Proof.
  induction l1 as [|x l1 IH]; simpl; intros Hs.
  - split; [constructor | intros a b []].
  - apply StronglySorted_inv in Hs as [Hs Hx].
    destruct (IH Hs) as [Hs1 Hcross]. split.
    + constructor; [assumption|].
      rewrite Forall_forall in *. intros z Hz. apply Hx.
      apply in_or_app. now left.
    + intros a b [<-|Ha] Hb; [|now apply Hcross].
      rewrite Forall_forall in Hx. apply Hx. apply in_or_app. now right.
Qed.

Lemma sorted_weaken (R S : A -> A -> Prop) (l : list A) :
  (forall a b, In a l -> In b l -> R a b -> S a b) ->
  StronglySorted R l -> StronglySorted S l.
Proof.
  intros Himp Hs. induction Hs as [|x l Hl IH Hx]; constructor.
  - apply IH. intros a b Ha Hb. apply Himp; now right.
  - rewrite Forall_forall in *. intros z Hz.
    apply Himp; [now left | now right | now apply Hx].
Qed.

(** The matches among the first [n] elements are the first matches. *)
Lemma filter_firstn (p : A -> bool) (n : nat) (l : list A) :
  filter p (firstn n l)
  = firstn (List.length (filter p (firstn n l))) (filter p l).
Proof.
  rewrite <- (firstn_skipn n l) at 3. rewrite filter_app.
  rewrite firstn_app, Nat.sub_diag, firstn_all. simpl.
  now rewrite app_nil_r.
Qed.
End Lists.
End SortFacts.

(** ** The order of binary64 and the sign of a difference *)

Module DoubleOrder.
Import FloatOps FloatAxioms SpecFloat.
Import Binary64.
Local Open Scope Z_scope.

(** *** The comparisons follow the order of the ranks *)

Lemma SFltb_rank (x y : spec_float) :
  x <> S754_nan -> y <> S754_nan ->
  (SFltb x y = true <-> lex_lt (rank x) (rank y)).
Proof.
  intros Hx Hy. unfold SFltb, SFcompare, lex_lt, rank.
  destruct x as [sx|sx| |sx mx ex], y as [sy|sy| |sy my ey];
    try congruence;
    try destruct sx; try destruct sy;
    try (split; [intros; lia | reflexivity]);
    try (split; [discriminate | intros; lia]).
  - destruct (Z.compare_spec ex ey) as [E|E|E].
    + change (Pos.compare_cont Eq mx my) with (Pos.compare mx my).
      destruct (Pos.compare_spec mx my) as [F|F|F]; cbn [CompOpp];
        (split; [try discriminate; intros; lia | try reflexivity; intros; lia]).
    + split; [discriminate | intros; lia].
    + split; [intros; lia | reflexivity].
  - destruct (Z.compare_spec ex ey) as [E|E|E].
    + change (Pos.compare_cont Eq mx my) with (Pos.compare mx my).
      destruct (Pos.compare_spec mx my) as [F|F|F];
        (split; [try discriminate; intros; lia | try reflexivity; intros; lia]).
    + split; [intros; lia | reflexivity].
    + split; [discriminate | intros; lia].
Qed.

Lemma SFleb_rank (x y : spec_float) :
  x <> S754_nan -> y <> S754_nan ->
  (SFleb x y = true <-> ~ lex_lt (rank y) (rank x)).
Proof.
  intros Hx Hy. unfold SFleb, SFcompare, lex_lt, rank.
  destruct x as [sx|sx| |sx mx ex], y as [sy|sy| |sy my ey];
    try congruence;
    try destruct sx; try destruct sy;
    try (split; [intros; lia | reflexivity]);
    try (split; [discriminate | intros; lia]).
  - destruct (Z.compare_spec ex ey) as [E|E|E].
    + change (Pos.compare_cont Eq mx my) with (Pos.compare mx my).
      destruct (Pos.compare_spec mx my) as [F|F|F]; cbn [CompOpp];
        (split; [try discriminate; intros; lia | try reflexivity; intros; lia]).
    + split; [discriminate | intros; lia].
    + split; [intros; lia | reflexivity].
  - destruct (Z.compare_spec ex ey) as [E|E|E].
    + change (Pos.compare_cont Eq mx my) with (Pos.compare mx my).
      destruct (Pos.compare_spec mx my) as [F|F|F];
        (split; [try discriminate; intros; lia | try reflexivity; intros; lia]).
    + split; [intros; lia | reflexivity].
    + split; [discriminate | intros; lia].
Qed.

Lemma SFeqb_rank (x y : spec_float) :
  x <> S754_nan -> y <> S754_nan ->
  (SFeqb x y = true <-> ~ lex_lt (rank x) (rank y) /\ ~ lex_lt (rank y) (rank x)).
Proof.
  intros Hx Hy. unfold SFeqb, SFcompare, lex_lt, rank.
  destruct x as [sx|sx| |sx mx ex], y as [sy|sy| |sy my ey];
    try congruence;
    try destruct sx; try destruct sy;
    try (split; [intros; lia | reflexivity]);
    try (split; [discriminate | intros; lia]).
  - destruct (Z.compare_spec ex ey) as [E|E|E].
    + change (Pos.compare_cont Eq mx my) with (Pos.compare mx my).
      destruct (Pos.compare_spec mx my) as [F|F|F]; cbn [CompOpp];
        (split; [try discriminate; intros; lia | try reflexivity; intros; lia]).
    + split; [discriminate | intros; lia].
    + split; [discriminate | intros; lia].
  - destruct (Z.compare_spec ex ey) as [E|E|E].
    + change (Pos.compare_cont Eq mx my) with (Pos.compare mx my).
      destruct (Pos.compare_spec mx my) as [F|F|F];
        (split; [try discriminate; intros; lia | try reflexivity; intros; lia]).
    + split; [discriminate | intros; lia].
    + split; [discriminate | intros; lia].
Qed.


(** *** Rounding keeps the sign *)

Lemma digits2_pos_bounds (m : positive) :
  2 ^ (Z.pos (digits2_pos m) - 1) <= Z.pos m < 2 ^ Z.pos (digits2_pos m).
Proof.
  induction m as [m IH|m IH|]; cbn [digits2_pos].
  - rewrite Pos2Z.inj_succ.
    replace (Z.succ (Z.pos (digits2_pos m)) - 1) with (Z.succ (Z.pos (digits2_pos m) - 1)) by lia.
    rewrite !Z.pow_succ_r by lia. lia.
  - rewrite Pos2Z.inj_succ.
    replace (Z.succ (Z.pos (digits2_pos m)) - 1) with (Z.succ (Z.pos (digits2_pos m) - 1)) by lia.
    rewrite !Z.pow_succ_r by lia. lia.
  - cbn. lia.
Qed.

Lemma shr_1_m (mrs : shr_record) :
  0 <= shr_m mrs -> shr_m (shr_1 mrs) = Z.div2 (shr_m mrs).
Proof.
  destruct mrs as [m r s]. cbn [shr_m]. intros Hm. unfold shr_1.
  destruct m as [|p|p]; [reflexivity| |lia].
  destruct p; reflexivity.
Qed.

Lemma iter_shr_1_m (p : positive) (mrs : shr_record) :
  0 <= shr_m mrs ->
  shr_m (iter_pos shr_1 p mrs) = Z.shiftr (shr_m mrs) (Z.pos p).
Proof.
  revert mrs. induction p as [p IH|p IH|]; intros mrs Hm; cbn [iter_pos].
  - assert (H1 : 0 <= shr_m (shr_1 mrs)).
    { rewrite shr_1_m by assumption. rewrite Z.div2_spec. now apply Z.shiftr_nonneg. }
    assert (H2 : 0 <= shr_m (iter_pos shr_1 p (shr_1 mrs))).
    { rewrite IH by assumption. now apply Z.shiftr_nonneg. }
    rewrite IH by assumption. rewrite IH by assumption.
    rewrite shr_1_m by assumption. rewrite Z.div2_spec.
    rewrite !Z.shiftr_shiftr by lia. f_equal. lia.
  - assert (H2 : 0 <= shr_m (iter_pos shr_1 p mrs)).
    { rewrite IH by assumption. now apply Z.shiftr_nonneg. }
    rewrite IH by assumption. rewrite IH by assumption.
    rewrite !Z.shiftr_shiftr by lia. f_equal. lia.
  - rewrite shr_1_m by assumption. apply Z.div2_spec.
Qed.

Lemma shiftr_pos (m : positive) (n : Z) :
  0 <= n < Z.pos (digits2_pos m) -> 0 < Z.shiftr (Z.pos m) n.
Proof.
  intros Hn. rewrite Z.shiftr_div_pow2 by lia.
  apply Z.div_str_pos. split; [apply Z.pow_pos_nonneg; lia|].
  apply Z.le_trans with (2 ^ (Z.pos (digits2_pos m) - 1)).
  - apply Z.pow_le_mono_r; lia.
  - apply digits2_pos_bounds.
Qed.

(** Shifting a positive mantissa to its place in the format leaves a
    positive mantissa, when the exponent is one of the format. *)
Lemma shr_fexp_pos (m : positive) (e : Z) (l : location) :
  emin prec emax <= e ->
  exists mrs' e',
    shr_fexp prec emax (Z.pos m) e l = (mrs', e')
    /\ 0 < shr_m mrs' /\ emin prec emax <= e'.
Proof.
  intros He. unfold shr_fexp. cbn [Zdigits2].
  set (n := fexp prec emax (Z.pos (digits2_pos m) + e) - e).
  assert (Hn : n < Z.pos (digits2_pos m)).
  { subst n. unfold fexp. change prec with 53 in *. lia. }
  unfold shr. destruct n as [|p|p] eqn:En.
  - eexists _, _. split; [reflexivity|]. split; [|assumption].
    destruct l as [|[| |]]; cbn; lia.
  - eexists _, _. split; [reflexivity|]. split; [|lia].
    rewrite iter_shr_1_m.
    + replace (shr_m (shr_record_of_loc (Z.pos m) l)) with (Z.pos m)
        by (destruct l as [|[| |]]; reflexivity).
      apply shiftr_pos. lia.
    + destruct l as [|[| |]]; cbn; lia.
  - eexists _, _. split; [reflexivity|]. split; [|assumption].
    destruct l as [|[| |]]; cbn; lia.
Qed.

Lemma round_nearest_even_pos (m : positive) (l : location) :
  exists m', round_nearest_even (Z.pos m) l = Z.pos m'.
Proof.
  unfold round_nearest_even.
  destruct l as [|[| |]]; cbn [Z.add];
    try destruct (Z.even (Z.pos m)); eexists; reflexivity.
Qed.

(** The result of rounding a positive mantissa is a number of the given
    sign, finite or infinite, and never a zero. *)
Lemma binary_round_aux_sign (s : bool) (m : positive) (e : Z) (l : location) :
  emin prec emax <= e ->
  has_sign s (binary_round_aux prec emax s (Z.pos m) e l).
Proof.
  intros He. unfold binary_round_aux.
  destruct (shr_fexp_pos m l He) as (mrs1 & e1 & E1 & Hm1 & He1).
  rewrite E1.
  destruct (shr_m mrs1) as [|m1|m1] eqn:Em1; try lia.
  destruct (round_nearest_even_pos m1 (loc_of_shr_record mrs1)) as (m2 & E2).
  rewrite E2.
  destruct (shr_fexp_pos m2 loc_Exact He1) as (mrs3 & e3 & E3 & Hm3 & He3).
  rewrite E3.
  destruct (shr_m mrs3) as [|m3|m3]; try lia.
  destruct (e3 <=? emax - prec); [right; eauto | left; reflexivity].
Qed.

Lemma binary_round_sign (s : bool) (m : positive) (e : Z) :
  emin prec emax <= e ->
  has_sign s (binary_round prec emax s m e).
Proof.
  intros He. unfold binary_round.
  destruct (shl_align m e (fexp prec emax (Z.pos (digits2_pos m) + e)))
    as [mz ez] eqn:E.
  apply binary_round_aux_sign.
  unfold shl_align in E.
  destruct (fexp prec emax (Z.pos (digits2_pos m) + e) - e) eqn:D;
    injection E as <- <-; try assumption.
  unfold fexp. lia.
Qed.

Lemma binary_normalize_ltb_zero (d e : Z) :
  emin prec emax <= e ->
  SFltb (binary_normalize prec emax d e false) (S754_zero false) = (d <? 0).
Proof.
  intros He. unfold binary_normalize. destruct d as [|p|p].
  - reflexivity.
  - destruct (binary_round_sign false p He) as [-> | (m' & e' & ->)]; reflexivity.
  - destruct (binary_round_sign true p He) as [-> | (m' & e' & ->)]; reflexivity.
Qed.

(** *** The value order of two numbers of the format *)

Lemma bounded_facts (m : positive) (e : Z) :
  bounded prec emax m e = true ->
  emin prec emax <= e
  /\ Z.pos m < 2 ^ 53
  /\ (emin prec emax < e -> 2 ^ 52 <= Z.pos m).
Proof.
  unfold bounded, canonical_mantissa, fexp. intros Hb.
  apply andb_prop in Hb. destruct Hb as [Hc _].
  apply Z.eqb_eq in Hc. change prec with 53 in *.
  pose proof (digits2_pos_bounds m) as [Hlo Hhi].
  split; [lia|]. split.
  - apply Z.lt_le_trans with (1 := Hhi). apply Z.pow_le_mono_r; lia.
  - intros Hlt. replace 52 with (Z.pos (digits2_pos m) - 1) by lia. exact Hlo.
Qed.

Lemma iter_xO (m d : positive) :
  Z.pos (Pos.iter xO m d) = Z.pos m * 2 ^ Z.pos d.
Proof.
  induction d as [|d IH] using Pos.peano_ind.
  - cbn [Pos.iter]. lia.
  - rewrite Pos.iter_succ, Pos2Z.inj_succ, Z.pow_succ_r by lia.
    rewrite Pos2Z.inj_xO, IH. lia.
Qed.

Lemma shl_align_value (m : positive) (e e' : Z) :
  e' <= e ->
  Z.pos (fst (shl_align m e e')) = Z.pos m * 2 ^ (e - e').
Proof.
  intros Hle. unfold shl_align. destruct (e' - e) as [|d|d] eqn:D.
  - replace (e - e') with 0 by lia. cbn [fst]. lia.
  - lia.
  - cbn [fst]. rewrite iter_xO. f_equal. f_equal. lia.
Qed.

(** Of two numbers of the format, the one with the larger exponent has the
    larger absolute value. *)
Lemma value_order (mx my : positive) (ex ey : Z) :
  bounded prec emax mx ex = true -> bounded prec emax my ey = true ->
  ex < ey ->
  Z.pos mx < Z.pos my * 2 ^ (ey - ex).
Proof.
  intros Hx Hy Hlt.
  destruct (bounded_facts _ _ Hx) as (Hex & Hmx & _).
  destruct (bounded_facts _ _ Hy) as (_ & _ & Hmy).
  specialize (Hmy ltac:(lia)).
  assert (Hp : 2 ^ 1 <= 2 ^ (ey - ex)) by (apply Z.pow_le_mono_r; lia).
  change (2 ^ 1) with 2 in Hp. change (2 ^ 53) with (2 ^ 52 * 2) in Hmx.
  nia.
Qed.

(** *** The sign of a difference *)

Lemma SFsub_sign (x y : spec_float) :
  valid_binary prec emax x = true -> valid_binary prec emax y = true ->
  x <> S754_nan -> y <> S754_nan ->
  SFltb (SF64sub x y) (S754_zero false) = SFltb x y.
Proof.
  intros Vx Vy Hx Hy. unfold SF64sub, SFsub.
  destruct x as [sx|sx| |sx mx ex], y as [sy|sy| |sy my ey]; try congruence;
    try (destruct sx, sy; reflexivity);
    try (destruct sx; reflexivity);
    try (destruct sy; reflexivity).
  cbn [SpecFloat.valid_binary] in Vx, Vy.
  destruct (bounded_facts _ _ Vx) as (Hex & _ & _).
  destruct (bounded_facts _ _ Vy) as (Hey & _ & _).
  rewrite binary_normalize_ltb_zero by lia.
  pose proof (@shl_align_value mx ex (Z.min ex ey) ltac:(lia)) as Ax.
  pose proof (@shl_align_value my ey (Z.min ex ey) ltac:(lia)) as Ay.
  set (ax := fst (shl_align mx ex (Z.min ex ey))) in *.
  set (ay := fst (shl_align my ey (Z.min ex ey))) in *.
  assert (Hord : (ex < ey -> Z.pos ax < Z.pos ay)
                 /\ (ey < ex -> Z.pos ay < Z.pos ax)
                 /\ (ex = ey -> Z.pos ax = Z.pos mx /\ Z.pos ay = Z.pos my)).
  { split; [|split].
    - intros Hlt. rewrite Ax, Ay.
      replace (Z.min ex ey) with ex by lia. rewrite Z.sub_diag, Z.mul_1_r.
      now apply value_order.
    - intros Hlt. rewrite Ax, Ay.
      replace (Z.min ex ey) with ey by lia. rewrite Z.sub_diag, Z.mul_1_r.
      now apply value_order.
    - intros ->. rewrite Ax, Ay. rewrite Z.min_id, Z.sub_diag. lia. }
  destruct Hord as (H1 & H2 & H3).
  clearbody ax ay. clear Ax Ay.
  unfold SFltb, SFcompare.
  change (Pos.compare_cont Eq mx my) with (Pos.compare mx my).
  destruct sx, sy; cbn [cond_Zopp];
    destruct (Z.compare_spec ex ey) as [E|E|E];
    try destruct (Pos.compare_spec mx my) as [F|F|F]; cbn [CompOpp];
    try specialize (H1 E); try specialize (H2 E);
    try (destruct (H3 E) as [H4 H5]);
    first [ apply Z.ltb_lt; lia | apply Z.ltb_ge; lia ].
Qed.

(** *** Doubles *)

Lemma not_nan (x : float) : is_nan x = false -> Prim2SF x <> S754_nan.
Proof.
  unfold is_nan. rewrite eqb_spec. intros Hx E. rewrite E in Hx. discriminate.
Qed.

(** The sign of a difference of two numbers is their order: [x - y < 0]
    exactly when [x < y]. *)
Lemma sub_ltb_zero (x y : float) :
  is_nan x = false -> is_nan y = false ->
  PrimFloat.ltb (PrimFloat.sub x y) 0 = PrimFloat.ltb x y.
Proof.
  intros Hx Hy. rewrite !ltb_spec, sub_spec.
  change (Prim2SF 0) with (S754_zero false).
  apply SFsub_sign; auto using Prim2SF_valid, not_nan.
Qed.

Lemma lex_lt_asym (t u : Z * Z * Z) : lex_lt t u -> ~ lex_lt u t.
Proof.
  destruct t as [[a b] c], u as [[a' b'] c']. unfold lex_lt. lia.
Qed.

Lemma lex_lt_negtrans (t u v : Z * Z * Z) :
  ~ lex_lt t u -> ~ lex_lt u v -> ~ lex_lt t v.
Proof.
  destruct t as [[a b] c], u as [[a' b'] c'], v as [[a2 b2] c2].
  unfold lex_lt. lia.
Qed.

Lemma ltb_asym (x y : float) :
  is_nan x = false -> is_nan y = false ->
  PrimFloat.ltb x y = true -> PrimFloat.ltb y x = false.
Proof.
  intros Hx Hy. rewrite !ltb_spec. intros H.
  apply SFltb_rank in H; auto using not_nan.
  apply not_true_is_false. intros H'.
  apply SFltb_rank in H'; auto using not_nan.
  exact (lex_lt_asym _ _ H H').
Qed.

Lemma ltb_negtrans (x y z : float) :
  is_nan x = false -> is_nan y = false -> is_nan z = false ->
  PrimFloat.ltb x y = false -> PrimFloat.ltb y z = false ->
  PrimFloat.ltb x z = false.
Proof.
  intros Hx Hy Hz. rewrite !ltb_spec. intros H1 H2.
  apply not_true_is_false. intros H3.
  apply SFltb_rank in H3; auto using not_nan.
  revert H3. apply lex_lt_negtrans with (u := rank (Prim2SF y)).
  - intros H. apply SFltb_rank in H; auto using not_nan. congruence.
  - intros H. apply SFltb_rank in H; auto using not_nan. congruence.
Qed.

(** [x < y] is the failure of [y <= x]. *)
Lemma ltb_leb (x y : float) :
  is_nan x = false -> is_nan y = false ->
  PrimFloat.ltb x y = negb (PrimFloat.leb y x).
Proof.
  intros Hx Hy. rewrite ltb_spec, leb_spec.
  pose proof (SFltb_rank (not_nan _ Hx) (not_nan _ Hy)) as L.
  pose proof (SFleb_rank (not_nan _ Hy) (not_nan _ Hx)) as R.
  destruct (SFltb (Prim2SF x) (Prim2SF y)), (SFleb (Prim2SF y) (Prim2SF x));
    try reflexivity; exfalso.
  - apply (proj1 R); [reflexivity|]. now apply L.
  - assert (H : ~ lex_lt (rank (Prim2SF x)) (rank (Prim2SF y))).
    { intros H. apply L in H. discriminate. }
    apply R in H. discriminate.
Qed.

(** Two numbers neither of which is below the other are equal for [===]. *)
Lemma ltb_eqb (x y : float) :
  is_nan x = false -> is_nan y = false ->
  negb (PrimFloat.ltb x y) && negb (PrimFloat.ltb y x) = PrimFloat.eqb x y.
Proof.
  intros Hx Hy. rewrite !ltb_spec, eqb_spec.
  apply Bool.eq_true_iff_eq.
  rewrite andb_true_iff, !negb_true_iff, <- !not_true_iff_false.
  rewrite (SFltb_rank (not_nan _ Hx) (not_nan _ Hy)).
  rewrite (SFltb_rank (not_nan _ Hy) (not_nan _ Hx)).
  rewrite (SFeqb_rank (not_nan _ Hx) (not_nan _ Hy)).
  tauto.
Qed.

End DoubleOrder.

(** ** Nearest-neighbour retrieval *)

Module RetrievalFacts.
Section RetrievalFacts.
Context {num : Type} `{JsNumber num}.

Lemma scores_comparable_spec (l : list (Scored num)) :
  scores_comparable l = true ->
  consistent_comparator by_score_desc l = true
  /\ (forall a b, In a l -> In b l ->
        sorts_before by_score_desc a b = negb (num_le (score a) (score b)))
  /\ (forall a b, In a l -> In b l ->
        ties by_score_desc a b = num_eq (score a) (score b)).
Proof.
  unfold scores_comparable. rewrite andb_true_iff, forallb_forall.
  intros [Hcons Hagree]. split; [assumption|].
  assert (Hboth : forall a b, In a l -> In b l ->
            sorts_before by_score_desc a b = negb (num_le (score a) (score b))
            /\ ties by_score_desc a b = num_eq (score a) (score b)).
  { intros a b Ha Hb. specialize (Hagree a Ha).
    rewrite forallb_forall in Hagree. specialize (Hagree b Hb).
    apply andb_true_iff in Hagree as [H1 H2].
    split; now apply eqb_prop. }
  split; intros a b Ha Hb; now destruct (Hboth a b Ha Hb).
Qed.

(** [slice(0, k)] of the sorted array is a prefix of it. *)
Lemma nearest_prefix (k : Z) (q : list num) (rows : list (Row num)) :
  let sorted := sort by_score_desc (score_all q rows) in
  let n := Z.to_nat (relative_index (Z.of_nat (List.length sorted)) k) in
  nearest k q rows = firstn n sorted.
Proof. unfold nearest, top_hits. apply ArrayFacts.slice_prefix. Qed.

Lemma sorted_length (q : list num) (rows : list (Row num)) :
  List.length (sort by_score_desc (score_all q rows)) = List.length rows.
Proof.
  rewrite (Permutation_length (SortFacts.sort_perm _ _)).
  unfold score_all. apply length_map.
Qed.
End RetrievalFacts.
End RetrievalFacts.

Module TopK.
(** With comparable scores the hits are the top [k] by descending score:
    rows of the corpus in non-increasing score order, no row left out
    scoring higher than a hit, the hits of any one score being the first
    rows of that score in insertion order. *)
Lemma comparable_top_k
    (num : Type) (N : JsNumber num) (k : Z) (q : list num) (rows : list (Row num)) :
  scores_comparable (score_all q rows) = true ->
  let scored := score_all q rows in
  let hits := nearest k q rows in
  exists rest,
    Permutation (hits ++ rest) scored
    /\ StronglySorted (fun a b => num_le (score b) (score a) = true) hits
    /\ (forall h r, In h hits -> In r rest -> num_le (score r) (score h) = true)
    /\ (forall h, In h scored ->
          exists n,
            filter (fun x => num_eq (score h) (score x)) hits
            = firstn n (filter (fun x => num_eq (score h) (score x)) scored))
    /\ ((0 <= k)%Z ->
        List.length hits = Nat.min (Z.to_nat k) (List.length rows))
    /\ ((Z.of_nat (List.length rows) <= k)%Z -> rest = []).
Proof.
  intros Hcmp scored hits.
  destruct (RetrievalFacts.scores_comparable_spec _ Hcmp) as (Hcons & Hle & Heq).
  destruct (SortFacts.consistent_comparator_spec _ _ Hcons) as [Hasym Htrans].
  set (sorted := sort by_score_desc scored).
  set (n := Z.to_nat (relative_index (Z.of_nat (List.length sorted)) k)).
  assert (Hhits : hits = firstn n sorted) by apply RetrievalFacts.nearest_prefix.
  assert (Hperm : Permutation sorted scored) by apply SortFacts.sort_perm.
  assert (Hlen : List.length sorted = List.length rows)
    by apply RetrievalFacts.sorted_length.
  assert (Hsorted : StronglySorted (not_after by_score_desc)
                      (firstn n sorted ++ skipn n sorted)).
  { rewrite firstn_skipn.
    apply (SortFacts.sort_sorted Hasym Htrans). apply incl_refl. }
  assert (Hsub : forall x, In x sorted -> In x scored)
    by (intros x; apply Permutation_in; exact Hperm).
  assert (Hfst : forall x, In x (firstn n sorted) -> In x scored).
  { intros x Hx. apply Hsub. rewrite <- (firstn_skipn n sorted).
    apply in_or_app. now left. }
  assert (Hrst : forall x, In x (skipn n sorted) -> In x scored).
  { intros x Hx. apply Hsub. rewrite <- (firstn_skipn n sorted).
    apply in_or_app. now right. }
  assert (Horder : forall a b, In a scored -> In b scored ->
            not_after by_score_desc a b ->
            num_le (score b) (score a) = true).
  { intros a b Ha Hb Hab. unfold not_after in Hab.
    rewrite (Hle b a Hb Ha) in Hab. now apply negb_false_iff. }
  apply SortFacts.sorted_app in Hsorted as [Hs Hcross].
  exists (skipn n sorted). rewrite Hhits. repeat split.
  - now rewrite firstn_skipn.
  - eapply SortFacts.sorted_weaken; [|exact Hs].
    intros a b Ha Hb. apply Horder; auto.
  - intros h r Hh Hr. apply Horder; auto.
  - intros h Hh.
    exists (List.length (filter (ties by_score_desc h) (firstn n sorted))).
    rewrite <- (filter_ext_in (ties by_score_desc h)
                 (fun x => num_eq (score h) (score x)) (firstn n sorted))
      by (intros x Hx; apply Heq; auto).
    rewrite <- (filter_ext_in (ties by_score_desc h)
                 (fun x => num_eq (score h) (score x)) scored)
      by (intros x Hx; apply Heq; auto).
    rewrite <- (SortFacts.sort_stable Htrans h Hh (incl_refl scored)).
    apply SortFacts.filter_firstn.
  - intros Hk. rewrite length_firstn. unfold n, relative_index.
    destruct (Z.ltb_spec k 0); lia.
  - intros Hk. apply skipn_all2. unfold n, relative_index.
    destruct (Z.ltb_spec k 0); lia.
Qed.


(** On binary64 the comparator [b.score - a.score] orders every list of
    scores without a [NaN]: its sign is the order of the two scores, so it
    is consistent, it places [a] before [b] exactly when [a.score <= b.score]
    fails, and it ties exactly the scores that are [===]. *)
Lemma double_scores_comparable (l : list (Scored float)) :
  Forall (fun s => PrimFloat.is_nan (score s) = false) l ->
  scores_comparable l = true.
Proof.
  intros Hnan. rewrite Forall_forall in Hnan.
  assert (Hbefore : forall a b, In a l -> In b l ->
            sorts_before by_score_desc a b = PrimFloat.ltb (score b) (score a)).
  { intros a b Ha Hb. unfold sorts_before, by_score_desc.
    cbn [num_lt num_sub num_zero double].
    apply DoubleOrder.sub_ltb_zero; auto. }
  unfold scores_comparable, consistent_comparator.
  apply andb_true_intro; split; [apply andb_true_intro; split|].
  - apply forallb_forall; intros x Hx. apply forallb_forall; intros y Hy.
    rewrite (Hbefore x y Hx Hy), (Hbefore y x Hy Hx).
    destruct (PrimFloat.ltb (score y) (score x)) eqn:E; [|reflexivity].
    cbn [implb]. rewrite (DoubleOrder.ltb_asym (Hnan y Hy) (Hnan x Hx) E).
    reflexivity.
  - apply forallb_forall; intros x Hx. apply forallb_forall; intros y Hy.
    apply forallb_forall; intros z Hz.
    rewrite (Hbefore x y Hx Hy), (Hbefore y z Hy Hz), (Hbefore x z Hx Hz).
    destruct (PrimFloat.ltb (score y) (score x)) eqn:E1; [reflexivity|].
    destruct (PrimFloat.ltb (score z) (score y)) eqn:E2; [reflexivity|].
    cbn [negb andb implb].
    rewrite (DoubleOrder.ltb_negtrans (Hnan z Hz) (Hnan y Hy) (Hnan x Hx) E2 E1).
    reflexivity.
  - apply forallb_forall; intros a Ha. apply forallb_forall; intros b Hb.
    apply andb_true_intro; split; apply eqb_true_iff.
    + rewrite (Hbefore a b Ha Hb). cbn [num_le double].
      apply DoubleOrder.ltb_leb; auto.
    + unfold ties. rewrite (Hbefore a b Ha Hb), (Hbefore b a Hb Ha).
      cbn [num_eq double]. rewrite andb_comm.
      apply DoubleOrder.ltb_eqb; auto.
Qed.
End TopK.

(** C5, amended.  On binary64, whenever no computed score is [NaN], the
    hits are the top [k] of the corpus by descending score: they are rows of
    the corpus in non-increasing score order, no row left out scores higher
    than a hit, the hits of any one score are the first rows of that score in
    insertion order, there are [min k n] of them for [k >= 0], and for [k] at
    least the corpus size the whole corpus is returned. *)
Theorem nearest_is_stable_top_k
    (k : Z) (q : list float) (rows : list (Row float)) :
  Forall (fun s => PrimFloat.is_nan (score s) = false) (score_all q rows) ->
  let scored := score_all q rows in
  let hits := nearest k q rows in
  exists rest,
    Permutation (hits ++ rest) scored
    /\ StronglySorted (fun a b => PrimFloat.leb (score b) (score a) = true) hits
    /\ (forall h r, In h hits -> In r rest ->
          PrimFloat.leb (score r) (score h) = true)
    /\ (forall h, In h scored ->
          exists n,
            filter (fun x => PrimFloat.eqb (score h) (score x)) hits
            = firstn n (filter (fun x => PrimFloat.eqb (score h) (score x)) scored))
    /\ ((0 <= k)%Z ->
        List.length hits = Nat.min (Z.to_nat k) (List.length rows))
    /\ ((Z.of_nat (List.length rows) <= k)%Z -> rest = []).
Proof.
  intros Hnan.
  exact (@TopK.comparable_top_k float double k q rows
           (TopK.double_scores_comparable Hnan)).
Qed.

Lemma nearest_is_stable_top_k_witness :
  let corpus := [Fixtures.vacation; Fixtures.dress_code; Fixtures.vacation_copy] in
  let q := [0.5%float; 0.25%float] in
  Forall (fun s => PrimFloat.is_nan (score s) = false) (score_all q corpus)
  /\ map (fun s => Retriever.content (doc s)) (nearest 2 q corpus)
     = ["Vacation: 20 days/year."; "Vacation: 20 days/year. (copy)"]
  /\ exists rest,
       Permutation (nearest 2 q corpus ++ rest) (score_all q corpus)
       /\ forall h r, In h (nearest 2 q corpus) -> In r rest ->
                      PrimFloat.leb (score r) (score h) = true.
Proof.
  intros corpus q.
  assert (Hnan : Forall (fun s => PrimFloat.is_nan (score s) = false)
                   (score_all q corpus))
    by (repeat constructor).
  split; [exact Hnan|]. split; [vm_compute; reflexivity|].
  destruct (@nearest_is_stable_top_k 2 q corpus Hnan)
    as (rest & Hperm & _ & Htop & _).
  exists rest. split; [exact Hperm | exact Htop].
Defined.

(** C5, as the specification words it, on binary64: with [k = 1], the query
    [[2 ** 600]] and the stored vectors [[2 ** 600]] and [[1]], the first
    score is [NaN] (infinity over infinity) and the second is [0]; the
    comparator ties them, the first row is returned, and the row left out
    scores higher than the hit in the sense that [0 <= NaN] is false. *)
Lemma nearest_not_top_k_with_nan :
  ~ (forall (k : Z) (q : list float) (rows : list (Row float)) h r,
       Forall (fun r => List.length (embedding r) = List.length q) rows ->
       In h (nearest k q rows) ->
       In r (score_all q rows) ->
       ~ In r (nearest k q rows) ->
       PrimFloat.leb (score r) (score h) = true).
Proof.
  intros Hclaim.
  set (q := [0x1p+600%float]).
  set (rows := [Fixtures.huge; Fixtures.unit_row]).
  set (h := {| score := cosine q (embedding Fixtures.huge); doc := Fixtures.huge |}).
  set (r := {| score := cosine q (embedding Fixtures.unit_row);
               doc := Fixtures.unit_row |}).
  assert (Hhits : nearest 1 q rows = [h]) by (vm_compute; reflexivity).
  specialize (Hclaim 1%Z q rows h r).
  rewrite Hhits in Hclaim.
  assert (Hfalse : PrimFloat.leb (score r) (score h) = false)
    by (vm_compute; reflexivity).
  rewrite Hclaim in Hfalse;
    [discriminate | repeat constructor | now left | right; now left |].
  intros [E|[]]. apply (f_equal (fun s => Retriever.content (doc s))) in E.
  discriminate E.
Qed.

(** ** Cosine similarity *)

Module CosineFacts.
Section CosineFacts.
Context {num : Type} `{JsNumber num}.

Local Notation "'square_sum'" :=
  (fold_left (fun acc x => num_add acc (num_mul x x))).

(** The accumulator [na] is the squared norm of [a]. *)
Lemma cosine_loop_na (a b : list num) (dot na nb : num) :
  snd (fst (cosine_loop a b dot na nb)) = square_sum a na.
Proof.
  revert b dot na nb. induction a as [|x a IH]; intros b dot na nb; simpl;
    [reflexivity | apply IH].
Qed.

(** The accumulator [nb] is the squared norm of [b] when [b] is as long as
    [a]. *)
Lemma cosine_loop_nb (a b : list num) (dot na nb : num) :
  List.length a = List.length b ->
  snd (cosine_loop a b dot na nb) = square_sum b nb.
Proof.
  revert b dot na nb. induction a as [|x a IH]; intros [|y b] dot na nb Hlen;
    simpl in *; try discriminate; [reflexivity|].
  apply IH. now injection Hlen.
Qed.

(** The guard [if (na === 0 || nb === 0) return 0]. *)
Lemma cosine_guard (a b : list num) :
  num_eq (norm2 a) num_zero = true
  \/ (List.length a = List.length b /\ num_eq (norm2 b) num_zero = true) ->
  cosine a b = num_zero.
Proof.
  intros Hzero. unfold cosine.
  pose proof (cosine_loop_na a b num_zero num_zero num_zero) as Hna.
  pose proof (cosine_loop_nb a b num_zero num_zero num_zero) as Hnb.
  destruct (cosine_loop a b num_zero num_zero num_zero) as [[dot na] nb].
  simpl in Hna, Hnb. unfold norm2 in Hzero.
  destruct Hzero as [Ha|[Hlen Hb]].
  - now rewrite Hna, Ha.
  - rewrite (Hnb Hlen), Hb, orb_true_r. reflexivity.
Qed.

Context {L : JsNumberLaws num}.

Lemma norm2_zero_vector (n : nat) : norm2 (repeat num_zero n) = num_zero.
Proof.
  unfold norm2. induction n as [|n IH]; simpl; [reflexivity|].
  now rewrite zero_accumulates.
Qed.
End CosineFacts.

#[export] Instance double_laws : JsNumberLaws float.
Proof. split; reflexivity. Qed.

End CosineFacts.

(** C2.  For vectors of equal length, when the squared norm of either one is
    [0] the score is exactly [0], which is not [NaN]: the guard returns
    before the division.  In particular a query vector of zeros scores [0]
    against every stored chunk, whatever its embedding. *)
Theorem cosine_zero_norm_is_zero
    (num : Type) (N : JsNumber num) (L : JsNumberLaws num) :
  (forall a b : list num,
      List.length a = List.length b ->
      num_eq (norm2 a) num_zero = true \/ num_eq (norm2 b) num_zero = true ->
      cosine a b = num_zero /\ num_isNaN (cosine a b) = false)
  /\ (forall (n : nat) (rows : list (Row num)),
        Forall (fun s => score s = num_zero /\ num_isNaN (score s) = false)
               (score_all (repeat num_zero n) rows)).
Proof.
  split.
  - intros a b Hlen Hzero.
    assert (Hcos : cosine a b = num_zero)
      by (apply CosineFacts.cosine_guard; tauto).
    rewrite Hcos. split; [reflexivity | apply zero_is_not_NaN].
  - intros n rows. unfold score_all. rewrite Forall_map. apply Forall_forall.
    intros r _. simpl.
    assert (Hcos : cosine (repeat num_zero n) (embedding r) = num_zero).
    { apply CosineFacts.cosine_guard. left.
      rewrite CosineFacts.norm2_zero_vector. apply zero_eq_zero. }
    rewrite Hcos. split; [reflexivity | apply zero_is_not_NaN].
Qed.

Lemma cosine_zero_norm_is_zero_witness :
  cosine [0%float; 0%float] [1%float; 0%float] = 0%float
  /\ PrimFloat.is_nan (cosine [0%float; 0%float] [1%float; 0%float]) = false
  /\ Forall (fun s => score s = 0%float /\ PrimFloat.is_nan (score s) = false)
       (score_all [0%float; 0%float] [Fixtures.vacation; Fixtures.dress_code]).
Proof.
  destruct (@cosine_zero_norm_is_zero float double CosineFacts.double_laws)
    as [Hpair Hquery].
  destruct (Hpair [0%float; 0%float] [1%float; 0%float] eq_refl
              (or_introl eq_refl)) as [Hzero Hnan].
  split; [exact Hzero|]. split; [exact Hnan|].
  exact (Hquery 2 [Fixtures.vacation; Fixtures.dress_code]).
Defined.

(** C1, as the specification words it, on binary64.  Neither half holds.
    With the query [[2 ** 600]] and the stored vectors [[2 ** 600]] and [[1]]
    the scores are [NaN] and [0]; the comparator ties them, the hits come in
    stored order, and [0 <= NaN] is false: the hits are not sorted.  The
    score of the vector [[2, 3]] against itself is
    [13 / (Math.sqrt(13) * Math.sqrt(13))], which rounds to
    [1.0000000000000002], the double after [1]: it is not in [[-1, 1]]. *)
Lemma nan_breaks_order_and_rounding_breaks_range :
  ~ (forall (k : Z) (q : list float) (rows : list (Row float)),
       Forall (fun r => List.length (embedding r) = List.length q) rows ->
       StronglySorted (fun a b => PrimFloat.leb (score b) (score a) = true)
                      (nearest k q rows))
  /\ ~ (forall (q : list float) (rows : list (Row float)),
          Forall (fun r => List.length (embedding r) = List.length q) rows ->
          Forall (fun s => PrimFloat.leb (-1) (score s) = true
                           /\ PrimFloat.leb (score s) 1 = true)
                 (score_all q rows))
  /\ cosine [2%float; 3%float] [2%float; 3%float] = 0x1.0000000000001p+0%float.
Proof.
  split; [|split; [|vm_compute; reflexivity]]; intros Hclaim.
  - specialize (Hclaim 6%Z [0x1p+600%float] [Fixtures.huge; Fixtures.unit_row]).
    assert (Hhits : nearest 6 [0x1p+600%float] [Fixtures.huge; Fixtures.unit_row]
                    = score_all [0x1p+600%float] [Fixtures.huge; Fixtures.unit_row])
      by (vm_compute; reflexivity).
    rewrite Hhits in Hclaim.
    assert (Hsorted := Hclaim ltac:(repeat constructor)).
    apply StronglySorted_inv in Hsorted as [_ Hfirst].
    apply Forall_inv in Hfirst. vm_compute in Hfirst. discriminate Hfirst.
  - specialize (Hclaim [2%float; 3%float] [Fixtures.two_three]).
    assert (Hrange := Hclaim ltac:(repeat constructor)).
    apply Forall_inv in Hrange. destruct Hrange as [_ Hle].
    vm_compute in Hle. discriminate Hle.
Qed.

(** C1, amended.  On binary64, for every stored chunk set and every query
    vector such that no computed score is [NaN], the hits come sorted by
    non-increasing score: each hit scores at least as much as every hit
    after it, and no hit scores less than a later one. *)
Theorem hits_sorted_when_no_score_is_nan
    (k : Z) (q : list float) (rows : list (Row float)) :
  Forall (fun s => PrimFloat.is_nan (score s) = false) (score_all q rows) ->
  StronglySorted (fun a b => PrimFloat.leb (score b) (score a) = true
                             /\ PrimFloat.ltb (score a) (score b) = false)
                 (nearest k q rows).
Proof.
  intros Hnan.
  destruct (@TopK.comparable_top_k float double k q rows
              (TopK.double_scores_comparable Hnan))
    as (rest & Hperm & Hsorted & _).
  eapply SortFacts.sorted_weaken; [|exact Hsorted].
  cbn beta. intros a b Ha Hb Hle. split; [exact Hle|].
  assert (Hin : forall s, In s (nearest k q rows) ->
                  PrimFloat.is_nan (score s) = false).
  { intros s Hs. rewrite Forall_forall in Hnan. apply Hnan.
    eapply Permutation_in; [exact Hperm|]. apply in_or_app. now left. }
  rewrite (@DoubleOrder.ltb_leb (score a) (score b) (Hin a Ha) (Hin b Hb)).
  cbn [num_le double] in Hle. now rewrite Hle.
Qed.

Lemma hits_sorted_when_no_score_is_nan_witness :
  let corpus := [Fixtures.dress_code; Fixtures.vacation; Fixtures.two_three] in
  let q := [0.5%float; 0.25%float] in
  Forall (fun s => PrimFloat.is_nan (score s) = false) (score_all q corpus)
  /\ map (fun s => Retriever.content (doc s)) (nearest 6 q corpus)
     = ["Vacation: 20 days/year."; "two-three"; "Dress code: casual."]
  /\ StronglySorted (fun a b => PrimFloat.leb (score b) (score a) = true
                                /\ PrimFloat.ltb (score a) (score b) = false)
       (nearest 6 q corpus).
Proof.
  intros corpus q.
  assert (Hnan : Forall (fun s => PrimFloat.is_nan (score s) = false)
                   (score_all q corpus))
    by (repeat constructor).
  split; [exact Hnan|]. split; [vm_compute; reflexivity|].
  exact (@hits_sorted_when_no_score_is_nan 6 q corpus Hnan).
Defined.

(** * Further properties *)

(** ** [RAGService]: what a call of [query] does to the service *)


(** X1.  [query] never throws: whatever the service and the question, it
    returns a string.  Every error of the retriever, of the embeddings
    provider and of the model ends in the [catch]. *)
Theorem query_never_throws
    (num : Type) (N : JsNumber num) (this : Rag.RAGService num) (q : string) :
  exists answer, fst (Rag.query q this) = Ok answer.
Proof.
  destruct (Rag.retriever this) as [r|] eqn:Hr.
  - rewrite (PipelineFacts.query_unfold q this Hr).
    destruct (fst (Rag.chain_invoke q (Pipeline.at_invoke this q)));
      cbn [fst]; eauto.
  - unfold Rag.query, Rag.bind, Rag.get. rewrite Hr. simpl. eauto.
Qed.

(** X2.  When the retriever returns documents and the model answers the
    prompt built from them, [query] returns that answer; the memory then
    holds the question and the answer, in that order, pushed and trimmed one
    after the other.  For a limit of at least one pair and a memory within
    it, the memory is the last [2 * maxMemoryTurns] turns of the former
    memory followed by the question and the answer. *)
Theorem query_answers
    (num : Type) (N : JsNumber num) (this : Rag.RAGService num)
    (r : SimpleMongoRetriever num) (q : string)
    (docs : list Document) (answer : string) :
  let asked := {| Rag.role := Rag.user; Rag.content := q |} in
  let answered := {| Rag.role := Rag.assistant; Rag.content := answer |} in
  let invoked := Rag.set_memory (Rag.pushed_memory this asked) this in
  Rag.retriever this = Some r ->
  _getRelevantDocuments r q = Ok docs ->
  Rag.model this
    {| Rag.context := Rag.combineDocuments docs;
       Rag.conversation_history := Rag.buildConversationHistory invoked;
       Rag.question := q |} = Ok answer ->
  fst (Rag.query q this) = Ok answer
  /\ Rag.memory (snd (Rag.query q this)) = Rag.pushed_memory invoked answered
  /\ ((1 <= Rag.maxMemoryTurns this)%Z ->
      Rag.memory (snd (Rag.query q this))
      = lastn (Z.to_nat (Rag.maxMemoryTurns this * 2))
              (Rag.memory this ++ [asked; answered])).
Proof.
  intros asked answered invoked Hr Hdocs Hmodel.
  destruct (PipelineFacts.with_chain_fields this) as (Hcr & Hcm & Hcx & Hcmod & _).
  assert (Hhist : Rag.buildConversationHistory (Pipeline.at_invoke this q)
                  = Rag.buildConversationHistory invoked).
  { unfold Rag.buildConversationHistory, Pipeline.at_invoke, invoked.
    cbn [Rag.memory Rag.maxMemoryTurns Rag.set_memory]. now rewrite Hcx. }
  assert (Hpush : Rag.pushed_memory (Pipeline.at_invoke this q) answered
                  = Rag.pushed_memory invoked answered).
  { unfold Rag.pushed_memory, Pipeline.at_invoke, invoked.
    cbn [Rag.memory Rag.maxMemoryTurns Rag.set_memory]. now rewrite Hcx. }
  assert (Hinv : fst (Rag.chain_invoke q (Pipeline.at_invoke this q))
                 = Ok answer).
  { rewrite (@PipelineFacts.chain_invoke_value num N q _ r).
    - cbn [fst]. rewrite Hdocs. cbn [bind_result]. rewrite Hhist.
      unfold Pipeline.at_invoke. cbn [Rag.model Rag.set_memory].
      rewrite Hcmod. exact Hmodel.
    - unfold Pipeline.at_invoke. cbn [Rag.retriever Rag.set_memory].
      now rewrite Hcr. }
  rewrite (PipelineFacts.query_unfold q this Hr), Hinv.
  cbn [fst snd Rag.memory Rag.set_memory]. fold answered. rewrite Hpush.
  split; [reflexivity|]. split; [reflexivity|].
  intros Hmax.
  rewrite (@MemoryFacts.pushed_memory_window num invoked answered)
    by (unfold invoked; cbn [Rag.maxMemoryTurns Rag.set_memory]; exact Hmax).
  unfold invoked at 2. cbn [Rag.memory Rag.set_memory].
  rewrite (@MemoryFacts.pushed_memory_window num this asked Hmax).
  unfold invoked. cbn [Rag.maxMemoryTurns Rag.set_memory].
  rewrite MemoryFacts.lastn_app_lastn, <- app_assoc. reflexivity.
Qed.

Lemma query_answers_witness :
  fst (Rag.query "How many vacation days?" MoreFixtures.answering_service)
  = Ok "You asked: How many vacation days?"
  /\ Rag.memory
       (snd (Rag.query "How many vacation days?" MoreFixtures.answering_service))
     = [{| Rag.role := Rag.user; Rag.content := "How many vacation days?" |};
        {| Rag.role := Rag.assistant;
           Rag.content := "You asked: How many vacation days?" |}].
Proof.
  destruct (@query_answers float double MoreFixtures.answering_service
              Fixtures.the_retriever "How many vacation days?"
              [ {| pageContent := "Vacation: 20 days/year.";
                   doc_metadata := [("source", "policy.txt")] |};
                {| pageContent := "Dress code: casual.";
                   doc_metadata := [("source", "policy.txt")] |} ]
              "You asked: How many vacation days?")
    as (Hret & _ & Hmem).
  - reflexivity.
  - vm_compute. reflexivity.
  - reflexivity.
  - split; [exact Hret|]. rewrite Hmem by (vm_compute; discriminate).
    reflexivity.
Defined.

(** X3.  The history handed to the model already ends with the question
    being asked: for a limit that is not negative and a retriever that
    returns documents, the outcome of [query] is the model's outcome on a
    prompt whose conversation history renders some older turns followed by
    the user turn of this very question. *)
Theorem query_history_includes_question
    (num : Type) (N : JsNumber num) (this : Rag.RAGService num)
    (r : SimpleMongoRetriever num) (q : string) (docs : list Document) :
  Rag.retriever this = Some r ->
  _getRelevantDocuments r q = Ok docs ->
  (0 <= Rag.maxMemoryTurns this)%Z ->
  exists older,
    fst (Rag.query q this)
    = match Rag.model this
              {| Rag.context := Rag.combineDocuments docs;
                 Rag.conversation_history :=
                   String.concat newline
                     (map Rag.render_turn
                        (older ++ [{| Rag.role := Rag.user; Rag.content := q |}]));
                 Rag.question := q |}
      with
      | Ok answer => Ok answer
      | Throw _ => Ok "An error occurred while processing your request."
      end.
Proof.
  intros Hr Hdocs Hmax.
  set (asked := {| Rag.role := Rag.user; Rag.content := q |}).
  destruct (PipelineFacts.with_chain_fields this) as (Hcr & Hcm & Hcx & Hcmod & _).
  assert (Hpushed : exists older1, Rag.pushed_memory this asked = older1 ++ [asked]).
  { unfold Rag.pushed_memory. destruct (_ >? _)%Z; [|eauto].
    apply ArrayFacts.slice_keeps_pushed. lia. }
  destruct Hpushed as [older1 Hpushed].
  destruct (@ArrayFacts.slice_keeps_pushed _ (- Rag.maxMemoryTurns this * 2)%Z
              older1 asked) as [older Holder]; [lia|].
  exists older.
  rewrite (PipelineFacts.query_unfold q this Hr).
  rewrite (@PipelineFacts.chain_invoke_value num N q _ r)
    by (unfold Pipeline.at_invoke; cbn [Rag.retriever Rag.set_memory];
        now rewrite Hcr).
  cbn [fst]. rewrite Hdocs. cbn [bind_result].
  assert (Hhist : Rag.buildConversationHistory (Pipeline.at_invoke this q)
                  = String.concat newline (map Rag.render_turn (older ++ [asked]))).
  { unfold Rag.buildConversationHistory, Pipeline.at_invoke.
    cbn [Rag.memory Rag.maxMemoryTurns Rag.set_memory].
    fold asked. now rewrite Hcx, Hpushed, Holder. }
  rewrite Hhist.
  unfold Pipeline.at_invoke at 1. cbn [Rag.model Rag.set_memory].
  rewrite Hcmod.
  destruct (Rag.model this _); reflexivity.
Qed.

Lemma query_history_includes_question_witness :
  fst (Rag.query "How many vacation days?" MoreFixtures.history_service)
  = Ok ("User: Hello" ++ newline ++ "Assistant: Hi, how can I help?" ++ newline
        ++ "User: How many vacation days?")%string.
Proof.
  destruct (@query_history_includes_question float double
              MoreFixtures.history_service Fixtures.the_retriever
              "How many vacation days?"
              [ {| pageContent := "Vacation: 20 days/year.";
                   doc_metadata := [("source", "policy.txt")] |};
                {| pageContent := "Dress code: casual.";
                   doc_metadata := [("source", "policy.txt")] |} ])
    as [older Hq].
  - reflexivity.
  - vm_compute. reflexivity.
  - vm_compute. discriminate.
  - vm_compute. reflexivity.
Defined.

(** X4.  [query] keeps the memory within its limit: for a limit of at least
    one pair, a memory of at most [2 * maxMemoryTurns] turns is still one
    after the call, whether the service is initialised or not and whether
    the chain answers or throws. *)
Theorem query_keeps_memory_bound
    (num : Type) (N : JsNumber num) (this : Rag.RAGService num) (q : string) :
  (1 <= Rag.maxMemoryTurns this)%Z ->
  (Z.of_nat (List.length (Rag.memory this)) <= Rag.maxMemoryTurns this * 2)%Z ->
  (Z.of_nat (List.length (Rag.memory (snd (Rag.query q this))))
   <= Rag.maxMemoryTurns this * 2)%Z.
Proof.
  intros Hmax Hlen.
  destruct (PipelineFacts.with_chain_fields this) as (Hcr & Hcm & Hcx & Hcmod & _).
  destruct (Rag.retriever this) as [r|] eqn:Hr.
  - rewrite (PipelineFacts.query_unfold q this Hr).
    assert (Hbound : forall (s : Rag.RAGService num) t,
              Rag.maxMemoryTurns s = Rag.maxMemoryTurns this ->
              (Z.of_nat (List.length (Rag.pushed_memory s t))
               <= Rag.maxMemoryTurns this * 2)%Z).
    { intros s t Hs.
      rewrite (@MemoryFacts.pushed_memory_window num s t) by (rewrite Hs; exact Hmax).
      rewrite MemoryFacts.lastn_length, Hs. lia. }
    destruct (fst (Rag.chain_invoke q (Pipeline.at_invoke this q)));
      cbn [snd Rag.memory Rag.set_memory Pipeline.at_invoke].
    + apply Hbound. cbn [Rag.maxMemoryTurns Rag.set_memory]. exact Hcx.
    + unfold Pipeline.at_invoke. cbn [Rag.memory Rag.set_memory].
      now apply Hbound.
  - unfold Rag.query, Rag.bind, Rag.get. rewrite Hr. exact Hlen.
Qed.

Lemma query_keeps_memory_bound_witness :
  (Z.of_nat (List.length
     (Rag.memory (snd (Rag.query "How many vacation days?"
                         MoreFixtures.answering_service)))) <= 1 * 2)%Z.
Proof.
  apply (@query_keeps_memory_bound float double MoreFixtures.answering_service
           "How many vacation days?"); vm_compute; discriminate.
Defined.

(** X5.  [query] writes nothing but the memory and the chain: the retriever,
    the limit and the model are those of before, and on an initialised
    service the chain is built once the call is over. *)
Theorem query_frame
    (num : Type) (N : JsNumber num) (this : Rag.RAGService num) (q : string) :
  let after := snd (Rag.query q this) in
  Rag.retriever after = Rag.retriever this
  /\ Rag.maxMemoryTurns after = Rag.maxMemoryTurns this
  /\ Rag.model after = Rag.model this
  /\ (Rag.retriever this <> None -> Rag.chain after <> None)
  /\ (Rag.retriever this = None -> Rag.chain after = Rag.chain this).
Proof.
  intros after. subst after.
  destruct (PipelineFacts.with_chain_fields this) as (Hcr & Hcm & Hcx & Hcmod & Hc).
  destruct (Rag.retriever this) as [r|] eqn:Hr.
  - rewrite (PipelineFacts.query_unfold q this Hr).
    destruct (fst (Rag.chain_invoke q (Pipeline.at_invoke this q)));
      unfold Pipeline.at_invoke;
      cbn [snd Rag.retriever Rag.maxMemoryTurns Rag.model Rag.chain Rag.set_memory];
      rewrite Hcr, Hcx, Hcmod; repeat split; auto; discriminate.
  - unfold Rag.query, Rag.bind, Rag.get. rewrite Hr. cbn [snd Rag.ret].
    repeat split; auto; intros Hneq; now elim Hneq.
Qed.

(** X6.  [setMaxMemoryTurns(n)] with [n >= 1] sets the limit and trims at
    once: the memory becomes the last [2 * n] turns of what it was, in the
    same order, so it holds at most [2 * n] turns, and a memory already
    within the new limit is kept whole. *)
Theorem setMaxMemoryTurns_trims
    (num : Type) (N : JsNumber num) (this : Rag.RAGService num) (n : Z) :
  (1 <= n)%Z ->
  let after := snd (Rag.setMaxMemoryTurns n this) in
  fst (Rag.setMaxMemoryTurns n this) = Ok tt
  /\ Rag.maxMemoryTurns after = n
  /\ Rag.memory after = lastn (Z.to_nat (n * 2)) (Rag.memory this)
  /\ (Z.of_nat (List.length (Rag.memory after)) <= n * 2)%Z
  /\ ((Z.of_nat (List.length (Rag.memory this)) <= n * 2)%Z ->
      Rag.memory after = Rag.memory this).
Proof.
  intros Hn after. subst after.
  assert (Heq : Rag.setMaxMemoryTurns n this
                = (Ok tt,
                   Rag.set_memory (lastn (Z.to_nat (n * 2)) (Rag.memory this))
                                  (Rag.set_maxMemoryTurns n this))).
  { cbv [Rag.setMaxMemoryTurns Rag.bind Rag.modify Rag.memory_trim].
    cbn [Rag.memory Rag.maxMemoryTurns Rag.set_maxMemoryTurns]. unfold lastn.
    destruct (Z.gtb_spec (Z.of_nat (List.length (Rag.memory this))) (n * 2)).
    - replace (- n * 2)%Z with (- (n * 2))%Z by lia.
      rewrite ArrayFacts.slice_last by lia. reflexivity.
    - replace (List.length (Rag.memory this) - Z.to_nat (n * 2)) with 0 by lia.
      reflexivity. }
  rewrite Heq. cbn [fst snd Rag.memory Rag.maxMemoryTurns Rag.set_memory
                    Rag.set_maxMemoryTurns].
  split; [reflexivity|]. split; [reflexivity|]. split; [reflexivity|].
  split.
  - rewrite MemoryFacts.lastn_length. lia.
  - intros Hle. unfold lastn.
    now replace (List.length (Rag.memory this) - Z.to_nat (n * 2)) with 0 by lia.
Qed.

Lemma setMaxMemoryTurns_trims_witness :
  Rag.memory (snd (Rag.setMaxMemoryTurns 1 Fixtures.service_with_failing_model))
  = [{| Rag.role := Rag.user; Rag.content := "Hello" |};
     {| Rag.role := Rag.assistant; Rag.content := "Hi, how can I help?" |}].
Proof.
  destruct (@setMaxMemoryTurns_trims float double
              Fixtures.service_with_failing_model 1) as (_ & _ & Hmem & _).
  - lia.
  - rewrite Hmem. reflexivity.
Defined.

(** X7.  After [clearMemory()] the next question is asked without any past:
    for a limit that is not negative and a retriever that returns documents,
    the conversation history in the prompt is the single line
    ["User: "] followed by the question. *)
Theorem clearMemory_then_query
    (num : Type) (N : JsNumber num) (this : Rag.RAGService num)
    (r : SimpleMongoRetriever num) (q : string) (docs : list Document) :
  Rag.retriever this = Some r ->
  _getRelevantDocuments r q = Ok docs ->
  (0 <= Rag.maxMemoryTurns this)%Z ->
  fst (Rag.bind Rag.clearMemory (fun _ => Rag.query q) this)
  = match Rag.model this
            {| Rag.context := Rag.combineDocuments docs;
               Rag.conversation_history := ("User: " ++ q)%string;
               Rag.question := q |}
    with
    | Ok answer => Ok answer
    | Throw _ => Ok "An error occurred while processing your request."
    end.
Proof.
  intros Hr Hdocs Hmax.
  unfold Rag.bind at 1. unfold Rag.clearMemory, Rag.modify.
  set (cleared := Rag.set_memory [] this).
  assert (Hrc : Rag.retriever cleared = Some r) by exact Hr.
  destruct (PipelineFacts.with_chain_fields cleared)
    as (Hcr & Hcm & Hcx & Hcmod & _).
  rewrite (PipelineFacts.query_unfold q cleared Hrc).
  rewrite (@PipelineFacts.chain_invoke_value num N q _ r)
    by (unfold Pipeline.at_invoke; cbn [Rag.retriever Rag.set_memory];
        now rewrite Hcr).
  cbn [fst]. rewrite Hdocs. cbn [bind_result].
  assert (Hhist : Rag.buildConversationHistory (Pipeline.at_invoke cleared q)
                  = ("User: " ++ q)%string).
  { unfold Rag.buildConversationHistory, Pipeline.at_invoke,
      Rag.pushed_memory.
    cbn [Rag.memory Rag.maxMemoryTurns Rag.set_memory]. rewrite Hcx.
    change (Rag.maxMemoryTurns cleared) with (Rag.maxMemoryTurns this).
    change (Rag.memory cleared) with (@nil Rag.Turn). cbv zeta.
    assert (Hone : forall t : Rag.Turn,
              slice (- Rag.maxMemoryTurns this * 2) None [t] = [t]).
    { intros t. rewrite ArrayFacts.slice_from.
      replace (Z.to_nat _) with 0; [reflexivity|].
      unfold relative_index. cbn [List.length].
      destruct (Z.ltb_spec (- Rag.maxMemoryTurns this * 2) 0); lia. }
    cbn [app]. destruct (_ >? _)%Z; rewrite !Hone; reflexivity. }
  rewrite Hhist.
  unfold Pipeline.at_invoke at 1. cbn [Rag.model Rag.set_memory].
  rewrite Hcmod. change (Rag.model cleared) with (Rag.model this).
  destruct (Rag.model this _); reflexivity.
Qed.

Lemma clearMemory_then_query_witness :
  fst (Rag.bind Rag.clearMemory (fun _ => Rag.query "How many vacation days?")
         MoreFixtures.history_service)
  = Ok "User: How many vacation days?".
Proof.
  rewrite (@clearMemory_then_query float double MoreFixtures.history_service
             Fixtures.the_retriever "How many vacation days?"
             [ {| pageContent := "Vacation: 20 days/year.";
                  doc_metadata := [("source", "policy.txt")] |};
               {| pageContent := "Dress code: casual.";
                  doc_metadata := [("source", "policy.txt")] |} ]).
  - reflexivity.
  - reflexivity.
  - vm_compute. reflexivity.
  - vm_compute. discriminate.
Defined.

(** ** [SimpleMongoRetriever]: more on the scoring and the scan *)

(** X8.  The loop of [cosine] runs over the query vector only: the entries
    of a stored embedding past the length of the query are never read, and
    a longer embedding scores as its prefix of the query's length does. *)
Theorem cosine_ignores_extra_entries
    (num : Type) (N : JsNumber num) (a b : list num) :
  cosine a b = cosine a (firstn (List.length a) b).
Proof.
  assert (Hloop : forall (a b : list num) dot na nb,
            cosine_loop a b dot na nb
            = cosine_loop a (firstn (List.length a) b) dot na nb).
  { clear a b. induction a as [|x a IH]; intros b dot na nb; [reflexivity|].
    destruct b as [|y b]; [reflexivity|].
    cbn [cosine_loop List.length firstn hd tl]. apply IH. }
  unfold cosine. now rewrite <- Hloop.
Qed.

Module DoubleFacts.
Import FloatOps FloatAxioms SpecFloat.

(** Two doubles with the same specification value are the same double. *)
Lemma float_ext (x y : float) : Prim2SF x = Prim2SF y -> x = y.
Proof.
  intros E. rewrite <- (SF2Prim_Prim2SF x), <- (SF2Prim_Prim2SF y).
  now rewrite E.
Qed.

Lemma mul_comm (x y : float) : PrimFloat.mul x y = PrimFloat.mul y x.
Proof.
  apply float_ext. rewrite !mul_spec. unfold SF64mul, SFmul.
  destruct (Prim2SF x) as [sx|sx| |sx mx ex], (Prim2SF y) as [sy|sy| |sy my ey];
    try reflexivity; try (now rewrite xorb_comm).
  now rewrite xorb_comm, Pos.mul_comm, Z.add_comm.
Qed.

Lemma add_nan_r (x : float) : PrimFloat.add x nan = nan.
Proof.
  apply float_ext. rewrite add_spec. change (Prim2SF nan) with S754_nan.
  unfold SF64add, SFadd. destruct (Prim2SF x); reflexivity.
Qed.

Lemma add_nan_l (x : float) : PrimFloat.add nan x = nan.
Proof.
  apply float_ext. rewrite add_spec. change (Prim2SF nan) with S754_nan.
  reflexivity.
Qed.

Lemma mul_nan_r (x : float) : PrimFloat.mul x nan = nan.
Proof.
  apply float_ext. rewrite mul_spec. change (Prim2SF nan) with S754_nan.
  unfold SF64mul, SFmul. destruct (Prim2SF x); reflexivity.
Qed.

Lemma div_nan_l (x : float) : PrimFloat.div nan x = nan.
Proof.
  apply float_ext. rewrite div_spec. change (Prim2SF nan) with S754_nan.
  reflexivity.
Qed.

(** Swapping the two vectors swaps the two norms and keeps the dot
    product. *)
Lemma cosine_loop_swap (a b : list float) (dot na nb : float) :
  List.length a = List.length b ->
  cosine_loop b a dot nb na
  = (let '(d, x, y) := cosine_loop a b dot na nb in (d, y, x)).
Proof.
  revert b dot na nb. induction a as [|x a IH]; intros [|y b] dot na nb Hlen;
    try discriminate; [reflexivity|].
  cbn [cosine_loop hd tl]. cbn [num_mul double].
  rewrite (mul_comm y x). apply IH. now injection Hlen.
Qed.

(** Once the stored embedding is exhausted, the dot product and its norm
    are [NaN] and stay so. *)
Lemma cosine_loop_exhausted (a : list float) (dot na nb : float) :
  a <> [] ->
  cosine_loop a [] dot na nb
  = (nan, fold_left (fun acc x => PrimFloat.add acc (PrimFloat.mul x x)) a na, nan).
Proof.
  assert (Hnan : forall (a : list float) na,
            cosine_loop a [] nan na nan
            = (nan, fold_left (fun acc x => PrimFloat.add acc (PrimFloat.mul x x)) a na,
               nan)).
  { clear. induction a as [|x a IH]; intros na; [reflexivity|].
    cbn [cosine_loop hd tl fold_left]. cbn [num_add num_mul num_undefined double].
    rewrite !add_nan_l. apply IH. }
  destruct a as [|x a]; [congruence|]. intros _.
  cbn [cosine_loop hd tl fold_left]. cbn [num_add num_mul num_undefined double].
  rewrite !mul_nan_r, !add_nan_r. apply Hnan.
Qed.

Lemma cosine_loop_short (a b : list float) (dot na nb : float) :
  List.length b < List.length a ->
  cosine_loop a b dot na nb
  = (nan, fold_left (fun acc x => PrimFloat.add acc (PrimFloat.mul x x)) a na, nan).
Proof.
  revert a dot na nb. induction b as [|y b IH]; intros a dot na nb Hlen.
  - apply cosine_loop_exhausted. destruct a; [simpl in Hlen; lia | discriminate].
  - destruct a as [|x a]; [simpl in Hlen; lia|].
    cbn [cosine_loop hd tl fold_left]. cbn [num_add num_mul double].
    apply IH. simpl in Hlen. lia.
Qed.
End DoubleFacts.

(** X9.  On doubles the score is symmetric: for two vectors of the same
    length, [cosine(a, b)] and [cosine(b, a)] are the same double. *)
Theorem cosine_symmetric
    (a b : list float) :
  List.length a = List.length b ->
  cosine (H := double) a b = cosine (H := double) b a.
Proof.
  intros Hlen. unfold cosine.
  rewrite (DoubleFacts.cosine_loop_swap a b num_zero num_zero num_zero Hlen).
  destruct (cosine_loop a b num_zero num_zero num_zero) as [[d na] nb].
  rewrite orb_comm. cbn [num_mul double].
  now rewrite (DoubleFacts.mul_comm (num_sqrt nb) (num_sqrt na)).
Qed.

Lemma cosine_symmetric_witness :
  cosine (H := double) [0.5%float; 0.25%float] [1%float; 0%float]
  = cosine (H := double) [1%float; 0%float] [0.5%float; 0.25%float].
Proof.
  apply (@cosine_symmetric [0.5%float; 0.25%float] [1%float; 0%float]).
  reflexivity.
Defined.

(** X10.  On doubles, a stored embedding shorter than the query vector makes
    the score [NaN]: the missing entries are read as [undefined] and poison
    the dot product and the norm.  The only exception is a query of zero
    norm, for which the guard still returns [0]. *)
Theorem cosine_short_embedding
    (a b : list float) :
  List.length b < List.length a ->
  cosine (H := double) a b
  = if PrimFloat.eqb (norm2 (H := double) a) 0 then 0%float else nan.
Proof.
  intros Hlen. unfold cosine, norm2.
  rewrite (DoubleFacts.cosine_loop_short a b num_zero num_zero num_zero Hlen).
  cbn [num_eq num_zero num_div num_mul num_add double].
  change (PrimFloat.eqb nan 0) with false. rewrite orb_false_r.
  destruct (PrimFloat.eqb _ 0); [reflexivity|].
  apply DoubleFacts.div_nan_l.
Qed.

Lemma cosine_short_embedding_witness :
  PrimFloat.is_nan (cosine (H := double) [1%float; 0%float] [1%float]) = true.
Proof.
  rewrite (@cosine_short_embedding [1%float; 0%float] [1%float]).
  - reflexivity.
  - simpl. lia.
Defined.

Module StoreFacts.
Section Loop.
Variables A B : Type.
Variable f : A -> result B.

Lemma for_of_push_map (g : A -> B) (l : list A) :
  (forall t, In t l -> f t = Ok (g t)) ->
  for_of_push f l = Ok (map g l).
Proof.
  induction l as [|t l IH]; intros Hall; [reflexivity|].
  cbn [for_of_push map]. rewrite (Hall t) by now left.
  cbn [bind_result]. rewrite IH by (intros; apply Hall; now right).
  reflexivity.
Qed.

(** The loop throws [e] exactly when some call throws [e] and every call
    before it has returned. *)
Lemma for_of_push_throws (l : list A) (e : JsError) :
  for_of_push f l = Throw e
  <-> exists pre t post,
        l = pre ++ t :: post
        /\ Forall (fun x => exists v, f x = Ok v) pre
        /\ f t = Throw e.
Proof.
  induction l as [|x l IH]; cbn [for_of_push].
  - split; [discriminate|].
    intros (pre & t & post & E & _). destruct pre; discriminate.
  - destruct (f x) as [v|e0] eqn:Ex; cbn [bind_result].
    + destruct (for_of_push f l) as [vs|e1] eqn:El; cbn [bind_result].
      * split; [discriminate|].
        intros (pre & t & post & E & Hpre & Ht).
        destruct pre as [|p pre]; cbn [app] in E; injection E as -> ->.
        -- congruence.
        -- apply Forall_inv_tail in Hpre.
           assert (Hthrow : Ok vs = Throw e)
             by (apply IH; exists pre, t, post; auto).
           discriminate.
      * split.
        -- intros E. apply IH in E as (pre & t & post & -> & Hpre & Ht).
           exists (x :: pre), t, post. repeat split; eauto.
        -- intros (pre & t & post & E & Hpre & Ht).
           destruct pre as [|p pre]; cbn [app] in E; injection E as -> ->.
           ++ congruence.
           ++ apply Forall_inv_tail in Hpre.
              apply IH. exists pre, t, post. auto.
    + split.
      * intros E. exists [], x, l. repeat split; [constructor | congruence].
      * intros (pre & t & post & E & Hpre & Ht).
        destruct pre as [|p pre]; cbn [app] in E; injection E as -> ->.
        -- congruence.
        -- apply Forall_inv in Hpre. destruct Hpre as [v Hv]. congruence.
Qed.
End Loop.

Section Store.
Context {num : Type} `{JsNumber num}.

Lemma slice_map {A B : Type} (f : A -> B) (start : Z) (end_ : option Z)
    (l : list A) :
  slice start end_ (map f l) = map f (slice start end_ l).
Proof.
  unfold slice. rewrite length_map, skipn_map, firstn_map. reflexivity.
Qed.

(** Sorting commutes with a renaming of the elements that keeps the
    comparator. *)
Lemma sort_map {A B : Type} (f : A -> B)
    (ca : A -> A -> num) (cb : B -> B -> num) (l : list A) :
  (forall a b, cb (f a) (f b) = ca a b) ->
  sort cb (map f l) = map f (sort ca l).
Proof.
  intros Hc.
  assert (Hins : forall x u,
            sort_insert cb (f x) (map f u) = map f (sort_insert ca x u)).
  { intros x u. induction u as [|y u IH]; [reflexivity|].
    cbn [map sort_insert]. unfold sorts_before. rewrite Hc.
    destruct (num_lt (ca y x) num_zero); cbn [map]; [now rewrite IH | reflexivity]. }
  induction l as [|x l IH]; [reflexivity|].
  cbn [map sort fold_right]. fold (sort cb (map f l)). fold (sort ca l).
  now rewrite IH, Hins.
Qed.

(** A row scores, for a query vector that is there, exactly when its
    embedding is an array or the query vector is empty. *)
Lemma score_row_value (q : list num) (r : Store.StoredRow num) :
  q = [] \/ (exists v, Store.embedding r = Store.array v) ->
  Store.score_row (Some q) r
  = Ok {| Store.score := cosine q (Store.entries (Store.embedding r));
          Store.doc := r |}.
Proof.
  unfold Store.score_row, Store.cosine_of.
  intros [->|[v ->]]; [|reflexivity].
  destruct (Store.embedding r); reflexivity.
Qed.

Lemma score_row_throws (q : list num) (r : Store.StoredRow num) (e : JsError) :
  Store.score_row (Some q) r = Throw e
  <-> q <> []
      /\ ((Store.embedding r = Store.undefined
           /\ e = TypeError "Cannot read properties of undefined (reading '0')")
          \/ (Store.embedding r = Store.null
              /\ e = TypeError "Cannot read properties of null (reading '0')")).
Proof.
  unfold Store.score_row, Store.cosine_of.
  destruct (Store.embedding r) as [v| |], q as [|x q]; cbn [bind_result];
    split; try discriminate;
    try (intros [Hq [[E _]|[E _]]]; try discriminate; now elim Hq).
  - intros E. injection E as <-. split; [discriminate|]. left. now split.
  - intros [_ [[_ ->]|[E _]]]; [reflexivity | discriminate].
  - intros E. injection E as <-. split; [discriminate|]. right. now split.
  - intros [_ [[E _]|[_ ->]]]; [discriminate | reflexivity].
Qed.

Lemma score_rows_value (q : list num) (rows : list (Store.StoredRow num)) :
  q = [] \/ Forall (fun r => exists v, Store.embedding r = Store.array v) rows ->
  for_of_push (Store.score_row (Some q)) rows = Ok (Store.score_all q rows).
Proof.
  intros Hrows. unfold Store.score_all. apply for_of_push_map.
  intros r Hr. apply score_row_value.
  destruct Hrows as [->|Hall]; [now left | right].
  rewrite Forall_forall in Hall. now apply Hall.
Qed.

(** On a collection that is read and whose rows carry arrays, the method
    with all its failure paths is the method over rows. *)
Lemma agrees (this : Retriever.SimpleMongoRetriever num) (query : string) :
  Store._getRelevantDocuments (Store.of_rows this) query
  = Retriever._getRelevantDocuments this query.
Proof.
  unfold Store._getRelevantDocuments, Retriever._getRelevantDocuments.
  cbn [Store.of_rows Store.embeddings Store.find Store.topK].
  destruct (query_vector (Retriever.embeddings this) query) as [[q|]|e];
    cbn [bind_result]; [| |reflexivity].
  - rewrite score_rows_value.
    + cbn [bind_result score_rows]. f_equal.
      assert (Hscored : Store.score_all q (map Store.stored (collection this))
                        = map Store.scored_as_stored (score_all q (collection this))).
      { unfold Store.score_all, score_all. rewrite !map_map. reflexivity. }
      rewrite Hscored. unfold top_hits.
      rewrite (@sort_map _ _ Store.scored_as_stored by_score_desc Store.by_score_desc)
        by reflexivity.
      rewrite slice_map, map_map. reflexivity.
    + right. apply Forall_forall. intros r Hr.
      apply in_map_iff in Hr as (r0 & <- & _). eexists. reflexivity.
  - destruct (collection this) as [|r rows]; [|reflexivity].
    cbn [map for_of_push score_rows bind_result]. unfold top_hits.
    cbn [sort fold_right]. unfold slice. now rewrite !skipn_nil, !firstn_nil.
Qed.
End Store.
End StoreFacts.

(** X11.  When the query embedding is there, the collection is read and
    every stored row carries an array as its embedding,
    [_getRelevantDocuments] returns documents and never invents or repeats
    one: the hits are stored rows, each taken at most as often as it is
    stored, every document is the content and metadata of a stored row,
    there are no more of them than rows, and for [topK >= 0] there are
    exactly [min topK n].  This holds for every arithmetic, comparable
    scores or not. *)
Theorem retrieval_returns_stored_rows
    (num : Type) (N : JsNumber num) (this : Store.SimpleMongoRetriever num)
    (query : string) (q : list num) (rows : list (Store.StoredRow num)) :
  query_vector (Store.embeddings this) query = Ok (Some q) ->
  Store.find this = Ok rows ->
  Forall (fun r => exists v, Store.embedding r = Store.array v) rows ->
  exists hits rest,
    Store._getRelevantDocuments this query = Ok (map Store.to_document hits)
    /\ Permutation (hits ++ rest) (Store.score_all q rows)
    /\ Forall (fun d => exists r, In r rows
                                  /\ pageContent d = Store.content r
                                  /\ doc_metadata d = Store.metadata r)
              (map Store.to_document hits)
    /\ List.length hits <= List.length rows
    /\ ((0 <= Store.topK this)%Z ->
        List.length hits
        = Nat.min (Z.to_nat (Store.topK this)) (List.length rows)).
Proof.
  intros Hq Hfind Harrays.
  set (scored := Store.score_all q rows).
  set (sorted := sort Store.by_score_desc scored).
  set (n := Z.to_nat (relative_index (Z.of_nat (List.length sorted))
                        (Store.topK this))).
  assert (Hhits : slice 0 (Some (Store.topK this)) sorted = firstn n sorted)
    by apply ArrayFacts.slice_prefix.
  assert (Hlen : List.length sorted = List.length rows).
  { unfold sorted. rewrite (Permutation_length (SortFacts.sort_perm _ _)).
    unfold scored, Store.score_all. apply length_map. }
  assert (Hperm : Permutation (firstn n sorted ++ skipn n sorted) scored).
  { rewrite firstn_skipn. apply SortFacts.sort_perm. }
  exists (firstn n sorted), (skipn n sorted).
  split; [|split; [exact Hperm|split; [|split]]].
  - unfold Store._getRelevantDocuments. rewrite Hq, Hfind. cbn [bind_result].
    rewrite StoreFacts.score_rows_value by now right.
    cbn [bind_result]. fold scored. fold sorted. now rewrite Hhits.
  - rewrite Forall_map. apply Forall_forall. intros s Hs.
    assert (Hin : In s scored).
    { eapply Permutation_in; [exact Hperm|]. apply in_or_app. now left. }
    unfold scored, Store.score_all in Hin.
    apply in_map_iff in Hin as (r & <- & Hr).
    exists r. repeat split; assumption.
  - rewrite length_firstn. lia.
  - intros Hk. rewrite length_firstn. unfold n, relative_index.
    destruct (Z.ltb_spec (Store.topK this) 0); lia.
Qed.

Lemma retrieval_returns_stored_rows_witness :
  let this := Store.of_rows Fixtures.the_retriever in
  query_vector (Store.embeddings this) "How many vacation days?"
  = Ok (Some [0.5%float; 0.25%float])
  /\ Store.find this
     = Ok [Store.stored Fixtures.vacation; Store.stored Fixtures.dress_code]
  /\ exists hits : list (Store.Scored float),
       Store._getRelevantDocuments this "How many vacation days?"
       = Ok (map Store.to_document hits)
       /\ List.length hits = 2.
Proof.
  intros this. split; [reflexivity|]. split; [reflexivity|].
  destruct (@retrieval_returns_stored_rows float double this
              "How many vacation days?" [0.5%float; 0.25%float]
              [Store.stored Fixtures.vacation; Store.stored Fixtures.dress_code]
              eq_refl eq_refl)
    as (hits & rest & Hdocs & _ & _ & _ & Hlen).
  - repeat constructor; eexists; reflexivity.
  - exists hits. split; [exact Hdocs|].
    rewrite Hlen by (vm_compute; discriminate). reflexivity.
Defined.

(** X12.  With a provider whose methods, when it has them, return arrays
    as their types say, [_getRelevantDocuments] throws in these cases and no
    other: the query could not be embedded (the provider threw, or has neither
    [embedQuery] nor [embedDocuments]); the read of the collection was
    rejected; the batch method returned an empty array while the collection
    has rows, so that the scoring reads the length of [undefined]; or a
    stored row has no array as its embedding ([undefined] or [null]) while
    the query vector is not empty, in which case the error is the one of
    the first such row.  An empty collection never makes it throw by
    itself. *)
Theorem retrieval_failures
    (num : Type) (N : JsNumber num) (this : Store.SimpleMongoRetriever num)
    (query : string) (e : JsError) :
  Store._getRelevantDocuments this query = Throw e
  <-> query_vector (Store.embeddings this) query = Throw e
      \/ (exists qVec,
            query_vector (Store.embeddings this) query = Ok qVec
            /\ (Store.find this = Throw e
                \/ exists rows,
                     Store.find this = Ok rows
                     /\ ((qVec = None /\ rows <> []
                          /\ e = TypeError
                                 "Cannot read properties of undefined (reading 'length')")
                         \/ exists q pre r post,
                              qVec = Some q /\ q <> []
                              /\ rows = pre ++ r :: post
                              /\ Forall (fun x => exists v,
                                           Store.embedding x = Store.array v) pre
                              /\ ((Store.embedding r = Store.undefined
                                   /\ e = TypeError
                                        "Cannot read properties of undefined (reading '0')")
                                  \/ (Store.embedding r = Store.null
                                      /\ e = TypeError
                                           "Cannot read properties of null (reading '0')"))))).
Proof.
  unfold Store._getRelevantDocuments.
  destruct (query_vector (Store.embeddings this) query) as [qVec|e0];
    cbn [bind_result].
  2:{ split.
      - intros E. left. now injection E as <-.
      - intros [E|(qVec & E & _)]; [now injection E as <- | discriminate]. }
  destruct (Store.find this) as [rows|e1]; cbn [bind_result].
  2:{ split.
      - intros E. right. exists qVec. split; [reflexivity|]. left.
        now injection E as <-.
      - intros [E|(qVec' & _ & [E|(rows & E & _)])];
          [discriminate | now injection E as <- | discriminate]. }
  assert (Hloop : bind_result (for_of_push (Store.score_row qVec) rows)
                    (fun scored =>
                       Ok (map Store.to_document
                             (slice 0 (Some (Store.topK this))
                                (sort Store.by_score_desc scored))))
                  = Throw e
                  <-> for_of_push (Store.score_row qVec) rows = Throw e).
  { destruct (for_of_push (Store.score_row qVec) rows); cbn [bind_result];
      split; try discriminate; intros E; now injection E as <-. }
  rewrite Hloop, StoreFacts.for_of_push_throws. clear Hloop.
  split.
  - intros (pre & t & post & -> & Hpre & Ht).
    right. exists qVec. split; [reflexivity|]. right.
    exists (pre ++ t :: post). split; [reflexivity|].
    destruct qVec as [q|].
    + right. apply StoreFacts.score_row_throws in Ht as [Hq Hmissing].
      exists q, pre, t, post. repeat split; try assumption.
      eapply Forall_impl; [|exact Hpre]. cbn beta. intros x [v Hv].
      destruct (Store.embedding x) as [w| |] eqn:Ex; [eauto| |].
      * assert (Hthrow : Store.score_row (Some q) x
                         = Throw (TypeError
                             "Cannot read properties of undefined (reading '0')"))
          by (apply StoreFacts.score_row_throws; auto).
        congruence.
      * assert (Hthrow : Store.score_row (Some q) x
                         = Throw (TypeError
                             "Cannot read properties of null (reading '0')"))
          by (apply StoreFacts.score_row_throws; auto).
        congruence.
    + left. split; [reflexivity|]. split; [now destruct pre|].
      unfold Store.score_row, Store.cosine_of in Ht. cbn [bind_result] in Ht.
      now injection Ht as <-.
  - intros [E|(qVec' & E & [E'|(rows' & E' & Hcase)])]; try discriminate.
    injection E as <-. injection E' as <-.
    destruct Hcase as [(-> & Hne & ->)|(q & pre & r & post & -> & Hq & -> & Hpre & Hr)].
    + destruct rows as [|r rows]; [now elim Hne|].
      exists [], r, rows. repeat split. constructor.
    + exists pre, r, post. repeat split.
      * eapply Forall_impl; [|exact Hpre]. cbn beta. intros x Hx.
        rewrite StoreFacts.score_row_value by now right. eauto.
      * apply StoreFacts.score_row_throws. auto.
Qed.

Lemma retrieval_failures_witness :
  Store._getRelevantDocuments StoreFixtures.half_embedded "How many vacation days?"
  = Throw (TypeError "Cannot read properties of null (reading '0')")
  /\ Store._getRelevantDocuments StoreFixtures.unreachable "How many vacation days?"
     = Throw (Error "connect ECONNREFUSED 127.0.0.1:27017").
Proof.
  split.
  - apply (proj2 (@retrieval_failures float double StoreFixtures.half_embedded
                    "How many vacation days?" _)).
    right. exists (Some [0.5%float; 0.25%float]). split; [reflexivity|].
    right. eexists. split; [reflexivity|]. right.
    exists [0.5%float; 0.25%float], [Store.stored Fixtures.vacation],
           StoreFixtures.without_embedding, [].
    repeat split.
    + discriminate.
    + repeat constructor. eexists. reflexivity.
    + right. split; reflexivity.
  - apply (proj2 (@retrieval_failures float double StoreFixtures.unreachable
                    "How many vacation days?" _)).
    right. exists (Some [0.5%float; 0.25%float]). split; [reflexivity|].
    left. reflexivity.
Defined.

(** ** Ingestion: every chunk is stored with its own vector *)

Module IngestFacts.
Section IngestFacts.
Variables A B : Type.
Variable f : A -> nat -> B.

Lemma map_indexed_from_length (k : nat) (l : list A) :
  List.length (Ingest.map_indexed_from k f l) = List.length l.
Proof.
  revert k. induction l as [|x l IH]; intros k; simpl; [reflexivity|].
  now rewrite IH.
Qed.

(** The element at position [i] is built from the element at position [i]
    and from the index [i]. *)
Lemma map_indexed_from_nth (k i : nat) (l : list A) :
  nth_error (Ingest.map_indexed_from k f l) i
  = option_map (fun x => f x (k + i)) (nth_error l i).
Proof.
  revert k i. induction l as [|x l IH]; intros k [|i]; simpl; try reflexivity.
  - now rewrite Nat.add_0_r.
  - rewrite IH. now replace (S k + i) with (k + S i) by lia.
Qed.
End IngestFacts.
End IngestFacts.

(** X13.  Whatever the provider's batch method returns, [initializeVectorStore]
    builds one row per chunk, in the order of the chunks, each with the
    content and metadata of its chunk and the vector at the same position of
    the response: a response with too few vectors raises nothing and leaves
    the last chunks with an [undefined] embedding, and vectors in excess are
    dropped. *)
Theorem batch_rows_pair_by_position
    (num : Type) (N : JsNumber num) (e : Embeddings num)
    (batch : list string -> result (list (list num)))
    (docs : list Document) (vectors : list (list num)) :
  embedDocuments e = Some batch ->
  batch (map (@pageContent) docs) = Ok vectors ->
  exists rows,
    Ingest.embed_and_pair e docs = Ok rows
    /\ List.length rows = List.length docs
    /\ (forall i d,
          nth_error docs i = Some d ->
          nth_error rows i
          = Some {| Ingest.content := pageContent d;
                    Ingest.metadata := doc_metadata d;
                    Ingest.embedding := nth_error vectors i |})
    /\ (forall i row,
          nth_error rows i = Some row ->
          List.length vectors <= i ->
          Ingest.embedding row = None).
Proof.
  intros Hbatch Hvs.
  assert (Hnth : forall i d,
            nth_error docs i = Some d ->
            nth_error (Ingest.inserts docs vectors) i
            = Some {| Ingest.content := pageContent d;
                      Ingest.metadata := doc_metadata d;
                      Ingest.embedding := nth_error vectors i |}).
  { intros i d Hd. unfold Ingest.inserts, Ingest.map_indexed.
    rewrite IngestFacts.map_indexed_from_nth, Hd. reflexivity. }
  exists (Ingest.inserts docs vectors). repeat split.
  - unfold Ingest.embed_and_pair, Rag.embed_texts. now rewrite Hbatch, Hvs.
  - apply IngestFacts.map_indexed_from_length.
  - exact Hnth.
  - intros i row Hrow Hlen.
    destruct (nth_error docs i) as [d|] eqn:Hd.
    + rewrite (Hnth i d Hd) in Hrow. injection Hrow as <-.
      cbn [Ingest.embedding]. now apply nth_error_None.
    + unfold Ingest.inserts, Ingest.map_indexed in Hrow.
      rewrite IngestFacts.map_indexed_from_nth, Hd in Hrow. discriminate.
Qed.

Lemma batch_rows_pair_by_position_witness :
  exists rows,
    Ingest.embed_and_pair IngestFixtures.short_provider IngestFixtures.two_chunks
    = Ok rows
    /\ nth_error rows 1
       = Some {| Ingest.content := "Dress code: casual.";
                 Ingest.metadata := [];
                 Ingest.embedding := None |}.
Proof.
  destruct (@batch_rows_pair_by_position float double
              IngestFixtures.short_provider IngestFixtures.short_batch
              IngestFixtures.two_chunks [[1%float; 0%float]] eq_refl eq_refl)
    as (rows & Hrows & _ & Hnth & _).
  exists rows. split; [exact Hrows|].
  exact (Hnth 1 {| pageContent := "Dress code: casual."; doc_metadata := [] |}
              eq_refl).
Defined.

(** X14.  With the sequential fallback (no batch method, [embedQuery]
    there), the rows [initializeVectorStore] builds carry, chunk by chunk,
    the embedding of that chunk's own text; they are built whenever every
    call of [embedQuery] returns, and nothing is built when one throws. *)
Theorem fallback_rows_carry_own_embedding
    (num : Type) (N : JsNumber num) (e : Embeddings num)
    (f : string -> result (list num)) (docs : list Document) :
  embedDocuments e = None ->
  embedQuery e = Some f ->
  (forall rows,
     Ingest.embed_and_pair e docs = Ok rows ->
     List.length rows = List.length docs
     /\ forall i d,
          nth_error docs i = Some d ->
          exists v,
            f (pageContent d) = Ok v
            /\ nth_error rows i
               = Some {| Ingest.content := pageContent d;
                         Ingest.metadata := doc_metadata d;
                         Ingest.embedding := Some v |})
  /\ ((forall d, In d docs -> exists v, f (pageContent d) = Ok v) ->
      exists rows, Ingest.embed_and_pair e docs = Ok rows)
  /\ (forall d err,
        In d docs -> f (pageContent d) = Throw err ->
        exists err', Ingest.embed_and_pair e docs = Throw err').
Proof.
  intros Hbatch Hsingle.
  assert (Hembed : Rag.embed_texts e (map (@pageContent) docs)
                   = for_of_push f (map (@pageContent) docs)).
  { unfold Rag.embed_texts. now rewrite Hbatch, Hsingle. }
  unfold Ingest.embed_and_pair. rewrite Hembed. repeat split.
  - destruct (for_of_push f (map (@pageContent) docs)) as [vs|]; [|discriminate].
    cbn [bind_result] in H. injection H as <-.
    apply IngestFacts.map_indexed_from_length.
  - intros i d Hd.
    destruct (for_of_push f (map (@pageContent) docs)) as [vs|] eqn:Hvs;
      [|discriminate].
    cbn [bind_result] in H. injection H as <-.
    destruct (ArrayFacts.for_of_push_nth f (map (@pageContent) docs) i Hvs
                (t := pageContent d)) as (v & Hv & Hf).
    { rewrite nth_error_map, Hd. reflexivity. }
    exists v. split; [exact Hf|].
    unfold Ingest.inserts, Ingest.map_indexed.
    rewrite IngestFacts.map_indexed_from_nth, Hd. cbn [option_map Nat.add].
    now rewrite Hv.
  - intros Hall.
    destruct (ArrayFacts.for_of_push_total f (map (@pageContent) docs))
      as [vs Hvs].
    { intros t Ht. apply in_map_iff in Ht as (d & <- & Hd). now apply Hall. }
    rewrite Hvs. cbn [bind_result]. eauto.
  - intros d err Hd Herr.
    destruct (for_of_push f (map (@pageContent) docs)) as [vs|err'] eqn:Hvs;
      cbn [bind_result]; [|eauto].
    exfalso. apply ArrayFacts.for_of_push_ok in Hvs.
    apply In_nth_error in Hd as [i Hi].
    assert (Ht : nth_error (map (@pageContent) docs) i = Some (pageContent d))
      by (rewrite nth_error_map, Hi; reflexivity).
    apply ArrayFacts.for_of_push_ok in Hvs.
    destruct (ArrayFacts.for_of_push_nth f _ i Hvs Ht) as (v & _ & Hf).
    congruence.
Qed.

Lemma fallback_rows_carry_own_embedding_witness :
  Ingest.embed_and_pair Fixtures.single_provider IngestFixtures.two_chunks
  = Ok [ {| Ingest.content := "Vacation: 20 days/year.";
            Ingest.metadata := [];
            Ingest.embedding := Some [1%float; 0%float] |};
         {| Ingest.content := "Dress code: casual.";
            Ingest.metadata := [];
            Ingest.embedding := Some [0%float; 1%float] |} ]
  /\ exists v,
       Fixtures.embed_one "Dress code: casual." = Ok v
       /\ nth_error
            [ {| Ingest.content := "Vacation: 20 days/year.";
                 Ingest.metadata := [];
                 Ingest.embedding := Some [1%float; 0%float] |};
              {| Ingest.content := "Dress code: casual.";
                 Ingest.metadata := [];
                 Ingest.embedding := Some [0%float; 1%float] |} ] 1
          = Some {| Ingest.content := "Dress code: casual.";
                    Ingest.metadata := [];
                    Ingest.embedding := Some v |}.
Proof.
  split; [reflexivity|].
  destruct (@fallback_rows_carry_own_embedding float double
              Fixtures.single_provider Fixtures.embed_one
              IngestFixtures.two_chunks eq_refl eq_refl) as (Hrows & _).
  destruct (Hrows _ eq_refl) as (_ & Hnth).
  exact (Hnth 1 {| pageContent := "Dress code: casual."; doc_metadata := [] |}
              eq_refl).
Defined.

(** ** The search adapters when they are enabled *)

(** X15.  When its flag leaves it enabled, a search adapter opens one
    connection and, once connected, always closes it: the database sees the
    connection, the one aggregation (the [$search] stage on the loaded index
    with the filter when there is one, then the limit for [textSearch], then
    the projection) and the close, also when the aggregation throws.  The
    result is that of the aggregation unless the close itself throws.  When
    the connection cannot be opened its error is thrown and nothing is
    closed. *)
Theorem enabled_search_closes_connection
    (num : Type) (N : JsNumber num) (Doc : Type)
    (m : Search.Loaded) (env : Search.Env)
    (client : Search.MongoClient (num := num) Doc)
    (query : string) (path_arg : option Search.PathArg) (limit : option Z)
    (queryVector : list num) (k : option Z) (filter : option Search.Filter) :
  let discipline (pipeline : list Search.Stage)
                 (out : list Search.Event * result (list Doc)) :=
    match Search.connect client (Search.mongoUri m) with
    | Throw e => out = ([Search.client_connect (Search.mongoUri m)], Throw e)
    | Ok _ =>
        fst out
        = [Search.client_connect (Search.mongoUri m);
           Search.coll_aggregate (Search.dbName m) (Search.collName m) pipeline;
           Search.client_close]
        /\ snd out
           = match Search.close client with
             | Throw e => Throw e
             | Ok _ => Search.aggregate client (Search.dbName m)
                         (Search.collName m) pipeline
             end
    end in
  (Search.flag_enabled env "BM25_SEARCH_ENABLED" = true ->
   discipline
     [Search.search_stage (Search.indexName m)
        (match filter with
         | Some f =>
             Search.compound
               [Search.text query
                  (match path_arg with
                   | Some p => p
                   | None => Search.one_path "content"
                   end)]
               [f]
         | None =>
             Search.plain
               (Search.text query
                  (match path_arg with
                   | Some p => p
                   | None => Search.one_path "content"
                   end))
         end);
      Search.limit_stage (match limit with Some n => n | None => 10%Z end);
      Search.project_stage]
     (Search.textSearch m env client query path_arg limit filter))
  /\
  (Search.flag_enabled env "VECTOR_SEARCH_ENABLED" = true ->
   discipline
     [Search.search_stage (Search.indexName m)
        (match filter with
         | Some f =>
             Search.compound
               [Search.knn "embedding" queryVector
                  (match k with Some n => n | None => 5%Z end)]
               [f]
         | None =>
             Search.plain
               (Search.knn "embedding" queryVector
                  (match k with Some n => n | None => 5%Z end))
         end);
      Search.project_stage]
     (Search.vectorSearch m env client queryVector k filter)).
Proof.
  intros discipline. subst discipline.
  split; intros Hflag; unfold Search.textSearch, Search.vectorSearch;
    rewrite Hflag; cbn [negb]; unfold Search.run_pipeline, Search.search_body;
    destruct (Search.connect client (Search.mongoUri m)); try reflexivity;
    destruct filter; destruct (Search.close client); split; reflexivity.
Qed.

Lemma enabled_search_closes_connection_witness :
  Search.textSearch SearchFixtures.loaded SearchFixtures2.no_flags
    SearchFixtures2.failing_aggregation "license update sandbox" None None None
  = ([Search.client_connect "mongodb://localhost:27017";
      Search.coll_aggregate "OnboardIQ_bot" "ClusterMM"
        [Search.search_stage "ClusterMM_bm25_keyword"
           (Search.plain
              (Search.text "license update sandbox" (Search.one_path "content")));
         Search.limit_stage 10;
         Search.project_stage];
      Search.client_close],
     Throw (Error "index not found")).
Proof.
  destruct (@enabled_search_closes_connection float double unit
              SearchFixtures.loaded SearchFixtures2.no_flags
              SearchFixtures2.failing_aggregation "license update sandbox"
              None None [] None None) as [Htext _].
  destruct (Htext eq_refl) as [Hevents Hresult].
  rewrite (surjective_pairing (Search.textSearch _ _ _ _ _ _ _)).
  rewrite Hevents, Hresult. reflexivity.
Defined.

(** ** Dataset files and collection names *)

Module DatasetFacts.
Import Dataset.

Lemma append_length (s t : string) :
  String.length (s ++ t) = String.length s + String.length t.
Proof. induction s as [|c s IH]; simpl; [reflexivity | now rewrite IH]. Qed.

Lemma append_assoc (s t u : string) : ((s ++ t) ++ u = s ++ (t ++ u))%string.
Proof. induction s as [|c s IH]; simpl; [reflexivity | now rewrite IH]. Qed.

Lemma replace_each_length (f : ascii -> ascii) (s : string) :
  String.length (replace_each f s) = String.length s.
Proof. induction s as [|c s IH]; simpl; [reflexivity | now rewrite IH]. Qed.

Lemma toLowerCase_replace_each (s : string) :
  toLowerCase s = replace_each lower_ascii s.
Proof. induction s as [|c s IH]; simpl; [reflexivity | now rewrite IH]. Qed.

Lemma replace_each_compose (f g : ascii -> ascii) (s : string) :
  replace_each f (replace_each g s) = replace_each (fun c => f (g c)) s.
Proof. induction s as [|c s IH]; simpl; [reflexivity | now rewrite IH]. Qed.

Lemma replace_each_ext (f g : ascii -> ascii) (s : string) :
  (forall c, f c = g c) -> replace_each f s = replace_each g s.
Proof.
  intros Hfg. induction s as [|c s IH]; simpl; [reflexivity|].
  now rewrite Hfg, IH.
Qed.

Lemma sanitizeName_chars (name : string) :
  sanitizeName name = replace_each sanitize_char name.
Proof.
  unfold sanitizeName. rewrite toLowerCase_replace_each.
  rewrite replace_each_compose. reflexivity.
Qed.

Lemma sanitize_char_class (c : ascii) :
  is_lower_word_char (sanitize_char c) = true.
Proof.
  destruct c as [[] [] [] [] [] [] [] []]; vm_compute; reflexivity.
Qed.

Lemma sanitize_char_idempotent (c : ascii) :
  sanitize_char (sanitize_char c) = sanitize_char c.
Proof.
  destruct c as [[] [] [] [] [] [] [] []]; vm_compute; reflexivity.
Qed.

Lemma base_is_no_collection_name (stem : string -> string)
    (base : string) (files : list string) :
  existsb (String.eqb base) (map (collection_name stem base) files) = false.
Proof.
  induction files as [|file files IH]; [reflexivity|].
  cbn [map existsb]. rewrite IH, orb_false_r.
  apply String.eqb_neq. intros E.
  apply (f_equal String.length) in E. unfold collection_name in E.
  rewrite !append_length in E. simpl in E. lia.
Qed.
End DatasetFacts.

(** X16.  [sanitizeName] keeps the length of the name and returns only
    lower-case letters, digits and underscores; applying it to its own
    result changes nothing. *)
Theorem sanitizeName_is_a_normal_form (name : string) :
  String.length (Dataset.sanitizeName name) = String.length name
  /\ Dataset.all_chars Dataset.is_lower_word_char (Dataset.sanitizeName name)
     = true
  /\ Dataset.sanitizeName (Dataset.sanitizeName name) = Dataset.sanitizeName name.
Proof.
  rewrite !DatasetFacts.sanitizeName_chars. repeat split.
  - apply DatasetFacts.replace_each_length.
  - induction name as [|c name IH]; [reflexivity|].
    cbn [Dataset.replace_each Dataset.all_chars].
    now rewrite DatasetFacts.sanitize_char_class, IH.
  - rewrite DatasetFacts.replace_each_compose.
    apply DatasetFacts.replace_each_ext.
    apply DatasetFacts.sanitize_char_idempotent.
Qed.

(** X17.  The dataset indexer takes at most five files, all of them with
    the extension [.csv] in any capitalisation: they are the first CSV
    entries of the directory in the order it lists them, and all of them
    when there are five or fewer. *)
Theorem csv_files_are_the_first_five (entries : list string) :
  List.length (Dataset.csv_files entries) <= 5
  /\ Forall (fun f => Dataset.is_csv f = true) (Dataset.csv_files entries)
  /\ (exists rest,
        filter Dataset.is_csv entries = Dataset.csv_files entries ++ rest)
  /\ (List.length (filter Dataset.is_csv entries) <= 5 ->
      Dataset.csv_files entries = filter Dataset.is_csv entries).
Proof.
  unfold Dataset.csv_files. rewrite ArrayFacts.slice_prefix.
  set (csv := filter Dataset.is_csv entries).
  set (n := Z.to_nat (relative_index (Z.of_nat (List.length csv)) 5)).
  assert (Hn : n = Nat.min 5 (List.length csv)).
  { unfold n, relative_index. cbn [Z.ltb Z.compare]. lia. }
  repeat split.
  - rewrite length_firstn. lia.
  - apply Forall_forall. intros f Hf.
    assert (Hin : In f csv).
    { rewrite <- (firstn_skipn n csv). apply in_or_app. now left. }
    unfold csv in Hin. now apply filter_In in Hin.
  - exists (skipn n csv). symmetry. apply firstn_skipn.
  - intros Hlen. apply firstn_all2. lia.
Qed.

(** X18.  [create_atlas_indexes.ts] always ends its list of collections
    with the base collection: a name built for a file is the base name
    followed by an underscore and more, so it never equals the base name and
    the test [collNames.includes(baseCollection)] never holds. *)
Theorem collNames_always_adds_the_base_collection
    (stem : string -> string) (baseCollection : string) (files : list string) :
  Dataset.collNames stem baseCollection files
  = map (Dataset.collection_name stem baseCollection) files ++ [baseCollection].
Proof.
  unfold Dataset.collNames.
  now rewrite DatasetFacts.base_is_no_collection_name.
Qed.

(** ** Creating an Atlas index, loading files, combining documents *)

(** X19.  Creating an Atlas index never throws: it returns [true] exactly
    when the request got a response that is [ok], and [false] in every other
    case, a response that is not [ok], a failed request or an unreadable
    response body alike. *)
Theorem createAtlasIndex_never_throws
    (fetch : Atlas.Request -> result Atlas.Response) (opts : Atlas.Options) :
  exists created,
    Atlas.createAtlasSearchIndexIfRequested fetch opts = Ok created
    /\ (created = true
        <-> exists res,
              fetch (Atlas.index_request opts) = Ok res /\ Atlas.ok res = true).
Proof.
  unfold Atlas.createAtlasSearchIndexIfRequested.
  destruct (fetch (Atlas.index_request opts)) as [res|e]; cbn [bind_result].
  - destruct (Atlas.ok res) eqn:Hok; cbn [negb].
    + exists true. split; [reflexivity|]. split; [eauto | reflexivity].
    + exists false. split.
      * destruct (Atlas.text res); reflexivity.
      * split; [discriminate|]. intros (res' & E & Hok'). injection E as <-.
        congruence.
  - exists false. split; [reflexivity|]. split; [discriminate|].
    intros (res & E & _). discriminate.
Qed.

Module LoaderFacts.
Section LoaderFacts.
Variable Doc : Type.
Variable load : string -> result (list Doc).

Lemma load_loop (filePaths : list string) (acc : list Doc) :
  fold_left
    (fun allRawDocs fp =>
       match load fp with
       | Ok rawDocs => allRawDocs ++ rawDocs
       | Throw _ => allRawDocs
       end)
    filePaths acc
  = acc ++ flat_map (Loader.loaded_from load) filePaths.
Proof.
  revert acc. induction filePaths as [|fp filePaths IH]; intros acc; simpl.
  - now rewrite app_nil_r.
  - rewrite IH. unfold Loader.loaded_from at 2.
    destruct (load fp); [now rewrite app_assoc | reflexivity].
Qed.
End LoaderFacts.
End LoaderFacts.

(** X20.  The loading loop of [loadAndSplitFile] passes over a file that
    cannot be loaded and keeps all the others: a document is among the raw
    documents exactly when it comes from a path that loaded, the documents
    of the files follow one another in the order of the paths, and when no
    file loads the list is empty. *)
Theorem load_all_keeps_what_loads
    (Doc : Type) (load : string -> result (list Doc)) (filePaths : list string) :
  Loader.load_all load filePaths
  = flat_map (fun fp => match load fp with
                        | Ok rawDocs => rawDocs
                        | Throw _ => []
                        end) filePaths
  /\ (forall d,
        In d (Loader.load_all load filePaths)
        <-> exists fp rawDocs,
              In fp filePaths /\ load fp = Ok rawDocs /\ In d rawDocs)
  /\ ((forall fp, In fp filePaths -> exists e, load fp = Throw e) ->
      Loader.load_all load filePaths = []).
Proof.
  assert (Hall : Loader.load_all load filePaths
                 = flat_map (Loader.loaded_from load) filePaths).
  { unfold Loader.load_all. now rewrite LoaderFacts.load_loop. }
  split; [exact Hall|]. rewrite Hall. split.
  - intros d. rewrite in_flat_map. unfold Loader.loaded_from. split.
    + intros (fp & Hfp & Hd). destruct (load fp) as [rawDocs|] eqn:E; [|easy].
      eauto.
    + intros (fp & rawDocs & Hfp & E & Hd). exists fp. now rewrite E.
  - intros Hthrow. clear Hall.
    induction filePaths as [|fp filePaths IH]; [reflexivity|].
    cbn [flat_map]. unfold Loader.loaded_from at 1.
    destruct (Hthrow fp) as [e He]; [now left|]. rewrite He. cbn [app].
    apply IH. intros fp' Hfp'. apply Hthrow. now right.
Qed.

(** X21.  [combineDocuments] joins the page contents in order with the
    separator between them and nothing around them: no document gives the
    empty string, one document gives its content, and the combination of two
    non-empty batches is the two combinations with one separator between. *)
Theorem combineDocuments_splits
    (d : Document) (docs1 docs2 : list Document) :
  let separator := (newline ++ newline ++ "---" ++ newline ++ newline)%string in
  Rag.combineDocuments [] = ""
  /\ Rag.combineDocuments [d] = pageContent d
  /\ (docs1 <> [] -> docs2 <> [] ->
      Rag.combineDocuments (docs1 ++ docs2)
      = (Rag.combineDocuments docs1 ++ separator
         ++ Rag.combineDocuments docs2)%string).
Proof.
  intros separator. split; [reflexivity|]. split; [reflexivity|].
  intros H1 H2. unfold Rag.combineDocuments. fold separator.
  rewrite map_app.
  assert (H2' : map (@pageContent) docs2 <> [])
    by (destruct docs2; [congruence | discriminate]).
  revert H2'. generalize (map (@pageContent) docs2) as l2. clear H2.
  induction docs1 as [|x docs1 IH]; intros l2 Hl2; [congruence|].
  destruct docs1 as [|y docs1].
  - destruct l2 as [|z l2]; [congruence|]. reflexivity.
  - specialize (IH ltac:(discriminate) l2 Hl2).
    change (map (@pageContent) ((x :: y :: docs1)) ++ l2)
      with (pageContent x :: (map (@pageContent) (y :: docs1) ++ l2)).
    change (String.concat separator (map (@pageContent) (x :: y :: docs1)))
      with (pageContent x ++ separator
            ++ String.concat separator (map (@pageContent) (y :: docs1)))%string.
    rewrite !DatasetFacts.append_assoc, <- IH.
    cbn [map app]. destruct (map (@pageContent) docs1 ++ l2); reflexivity.
Qed.

(** ** Asking for more hits, and the rows of the dataset indexer *)

(** X22.  Asking for more neighbours only adds hits after the ones already
    returned: for [0 <= k <= k'], the hits for [k] are the first hits for
    [k'], in the same order.  This holds for every arithmetic. *)
Theorem nearest_grows_by_appending
    (num : Type) (N : JsNumber num) (k k' : Z) (q : list num)
    (rows : list (Row num)) :
  (0 <= k)%Z -> (k <= k')%Z ->
  exists more, nearest k' q rows = nearest k q rows ++ more.
Proof.
  intros Hk Hkk.
  rewrite !RetrievalFacts.nearest_prefix.
  set (sorted := sort by_score_desc (score_all q rows)).
  set (n := Z.to_nat (relative_index (Z.of_nat (List.length sorted)) k)).
  set (n' := Z.to_nat (relative_index (Z.of_nat (List.length sorted)) k')).
  assert (Hn : n <= n').
  { unfold n, n', relative_index.
    destruct (Z.ltb_spec k 0), (Z.ltb_spec k' 0); lia. }
  exists (skipn n (firstn n' sorted)).
  rewrite <- (firstn_skipn n (firstn n' sorted)) at 1.
  f_equal. rewrite firstn_firstn. f_equal. lia.
Qed.

Lemma nearest_grows_by_appending_witness :
  exists more,
    nearest 2 [0.5%float; 0.25%float]
      [Fixtures.vacation; Fixtures.dress_code; Fixtures.vacation_copy]
    = nearest 1 [0.5%float; 0.25%float]
        [Fixtures.vacation; Fixtures.dress_code; Fixtures.vacation_copy]
      ++ more.
Proof.
  apply (@nearest_grows_by_appending float double 1 2); lia.
Defined.

(** X23.  The dataset indexer numbers its rows by position and, with the
    sequential fallback, stores each text with its own embedding: row [i]
    has the i-th text as content, the file as source, [i] as row number and
    the embedding of that text.  The dimension it posts to Atlas is the
    length of the first vector, or 1536 when there is no vector or the first
    one is empty; it is never zero. *)
Theorem indexer_rows_are_numbered
    (num : Type) (N : JsNumber num) (e : Embeddings num)
    (f : string -> result (list num)) (file : string) (texts : list string)
    (vectors : list (list num)) :
  embedDocuments e = None ->
  embedQuery e = Some f ->
  VectorIndex.embed_texts e texts = Ok vectors ->
  List.length (Ingest.indexed_rows file texts vectors) = List.length texts
  /\ (forall i t,
        nth_error texts i = Some t ->
        exists v,
          f t = Ok v
          /\ nth_error (Ingest.indexed_rows file texts vectors) i
             = Some {| Ingest.row_content := t;
                       Ingest.source := file;
                       Ingest.row := i;
                       Ingest.row_embedding := Some v |})
  /\ (1 <= Ingest.index_dimensions vectors)%Z
  /\ (forall v rest,
        vectors = v :: rest -> v <> [] ->
        Ingest.index_dimensions vectors = Z.of_nat (List.length v))
  /\ (vectors = [] -> Ingest.index_dimensions vectors = 1536%Z)
  /\ (forall rest,
        vectors = [] :: rest -> Ingest.index_dimensions vectors = 1536%Z).
Proof.
  intros Hbatch Hsingle Hvs.
  unfold VectorIndex.embed_texts in Hvs. rewrite Hbatch, Hsingle in Hvs.
  split; [|split; [|split; [|split; [|split]]]].
  - apply IngestFacts.map_indexed_from_length.
  - intros i t Ht.
    destruct (ArrayFacts.for_of_push_nth f texts i Hvs Ht) as (v & Hv & Hf).
    exists v. split; [exact Hf|].
    unfold Ingest.indexed_rows, Ingest.map_indexed.
    rewrite IngestFacts.map_indexed_from_nth, Ht. cbn [option_map Nat.add].
    now rewrite Hv.
  - unfold Ingest.index_dimensions. destruct vectors as [|v rest]; [lia|].
    destruct (Z.eqb_spec (Z.of_nat (List.length v)) 0); lia.
  - intros v rest -> Hv. unfold Ingest.index_dimensions.
    destruct (Z.eqb_spec (Z.of_nat (List.length v)) 0) as [E|]; [|reflexivity].
    destruct v; [congruence | simpl in E; lia].
  - intros ->. reflexivity.
  - intros rest ->. reflexivity.
Qed.

Lemma indexer_rows_are_numbered_witness :
  VectorIndex.embed_texts Fixtures.single_provider ["Vacation"; "Dress code"]
  = Ok [[1%float; 0%float]; [0%float; 1%float]]
  /\ (exists v,
        Fixtures.embed_one "Dress code" = Ok v
        /\ nth_error
             (Ingest.indexed_rows "policies.csv" ["Vacation"; "Dress code"]
                [[1%float; 0%float]; [0%float; 1%float]]) 1
           = Some {| Ingest.row_content := "Dress code";
                     Ingest.source := "policies.csv";
                     Ingest.row := 1;
                     Ingest.row_embedding := Some v |})
  /\ Ingest.index_dimensions [[1%float; 0%float]; [0%float; 1%float]] = 2%Z
  /\ VectorIndex.embed_texts Fixtures.single_provider [] = Ok []
  /\ Ingest.index_dimensions (@nil (list float)) = 1536%Z.
Proof.
  split; [reflexivity|].
  destruct (@indexer_rows_are_numbered float double Fixtures.single_provider
              Fixtures.embed_one "policies.csv" ["Vacation"; "Dress code"]
              [[1%float; 0%float]; [0%float; 1%float]] eq_refl eq_refl eq_refl)
    as (_ & Hnth & _ & Hdims & _).
  destruct (@indexer_rows_are_numbered float double Fixtures.single_provider
              Fixtures.embed_one "policies.csv" [] [] eq_refl eq_refl eq_refl)
    as (_ & _ & _ & _ & Hnone & _).
  split; [exact (Hnth 1 "Dress code" eq_refl)|].
  split; [exact (Hdims _ _ eq_refl ltac:(discriminate))|].
  split; [reflexivity|].
  exact (Hnone eq_refl).
Defined.
